(** * KDS v5 order backend: a shallow embedding of [server.js]

    The development models the order part of the server: the [orders]
    table of the SQLite store, the five order handlers
    ([GET /api/orders], [POST /api/orders], [POST .../add-items],
    [POST .../status], [POST .../bill]), the events they publish and the
    JSON text kept in the [items_json] column; then, on their own table,
    the two item handlers ([GET /api/items], [POST /api/items]).

    Conventions of the model.
    - A JSON number is an integer ([Z]), the negative zero, or one of the
      two infinities that an overflowing literal such as [1e999] reads as;
      fractions are not represented.  An integer is written digit for
      digit (JavaScript turns to the exponent form from [1e21] on; either
      text reads back as the same number).  Characters are 8-bit code
      units.
    - [JSON_parse] reads the compact text that [JSON_stringify] writes,
      the only text that the handlers store; a text with white space, a
      fraction or an exponent, which JavaScript would read, is unreadable
      here.  An object keeps its members as written: the objects of
      JavaScript repeat no key.
    - [created_at] is a number of seconds, supplied by the caller of the
      insert in place of [CURRENT_TIMESTAMP]; SQLite compares the timestamp
      texts in the same order.
    - A request body is typed where SQLite's binding rules would otherwise
      be needed: [table_no], [special_requests] and [status] are absent or
      strings, [items] is absent or any JSON value, an id is an integer. *)

From Stdlib Require Import ZArith NArith List String Ascii Bool Lia.
From Stdlib Require Import DecimalString DecimalZ DecimalPos.
From Stdlib Require Import Sorted Permutation.
Import ListNotations.

#[local] Open Scope string_scope.
#[local] Open Scope Z_scope.

(* ================================================================== *)
(** * JSON values and the text written by [JSON.stringify] *)
(* ================================================================== *)

Module Json.

(** A value as [body-parser] hands it to a handler.  An object is the list
    of its own properties in enumeration order.  [JNegZero] is [-0],
    [JInfinity false] is [Infinity] and [JInfinity true] is [-Infinity]:
    no JSON text reads as [NaN]. *)
#[local] Unset Elimination Schemes.
Inductive json : Type :=
| JNull
| JBool (b : bool)
| JNum (z : Z)
| JStr (s : string)
| JArr (l : list json)
| JObj (m : list (string * json))
| JNegZero
| JInfinity (negative : bool).
#[local] Set Elimination Schemes.

(** Induction over a value and, through [Forall], over the elements of
    its arrays and the members of its objects. *)
Section JsonInduction.

Variable P : json -> Prop.
Hypothesis HNull : P JNull.
Hypothesis HBool : forall b, P (JBool b).
Hypothesis HNum : forall z, P (JNum z).
Hypothesis HStr : forall s, P (JStr s).
Hypothesis HArr : forall l, Forall P l -> P (JArr l).
Hypothesis HObj : forall m, Forall (fun kv => P (snd kv)) m -> P (JObj m).
Hypothesis HNegZero : P JNegZero.
Hypothesis HInfinity : forall b, P (JInfinity b).

Fixpoint json_ind (v : json) : P v :=
  match v with
  | JNull => HNull
  | JBool b => HBool b
  | JNum z => HNum z
  | JStr s => HStr s
  | JArr l =>
      HArr l ((fix all (l : list json) : Forall P l :=
                 match l with
                 | [] => Forall_nil P
                 | x :: l' => Forall_cons x (json_ind x) (all l')
                 end) l)
  | JObj m =>
      HObj m ((fix all (m : list (string * json))
                 : Forall (fun kv => P (snd kv)) m :=
                 match m with
                 | [] => Forall_nil _
                 | kv :: m' => Forall_cons kv (json_ind (snd kv)) (all m')
                 end) m)
  | JNegZero => HNegZero
  | JInfinity b => HInfinity b
  end.

End JsonInduction.

(** JavaScript truthiness, for [!x] and [x || d]. *)
Definition truthy (v : json) : bool :=
  match v with
  | JNull => false
  | JBool b => b
  | JNum z => negb (z =? 0)
  | JStr s => negb (s =? "")%string
  | JArr _ | JObj _ => true
  | JNegZero => false
  | JInfinity _ => true
  end.

(** [Array.isArray]. *)
Definition isArray (v : json) : bool :=
  match v with JArr _ => true | _ => false end.

(** ** Numbers *)

Definition number_text (z : Z) : string :=
  NilZero.string_of_int (Z.to_int z).

Definition is_digit (c : ascii) : bool :=
  ((48 <=? N_of_ascii c) && (N_of_ascii c <=? 57))%N.

Definition starts_digit (s : string) : bool :=
  match s with
  | EmptyString => false
  | String c _ => is_digit c
  end.

Fixpoint span_digits (s : string) : string * string :=
  match s with
  | EmptyString => (EmptyString, EmptyString)
  | String c r =>
      if is_digit c
      then let (d, r') := span_digits r in (String c d, r')
      else (EmptyString, s)
  end.

(** The longest prefix that can be a number, and what follows it. *)
Definition span_number (s : string) : string * string :=
  match s with
  | String c r =>
      if (c =? "-")%char
      then let (d, r') := span_digits r in (String c d, r')
      else span_digits s
  | EmptyString => (EmptyString, EmptyString)
  end.

(** A number is read only from its canonical text: no leading zero, no
    [-0], no fraction or exponent. *)
Definition read_number (t : string) : option Z :=
  match NilZero.int_of_string t with
  | Some d =>
      let z := Z.of_int d in
      if (number_text z =? t)%string then Some z else None
  | None => None
  end.

(** ** Strings *)

(** The quotation mark, code unit 34. *)
Definition quotation_mark : ascii := ascii_of_N 34.

Definition hex_digit (n : N) : ascii :=
  match n with
  | 0 => "0" | 1 => "1" | 2 => "2" | 3 => "3" | 4 => "4" | 5 => "5"
  | 6 => "6" | 7 => "7" | 8 => "8" | 9 => "9" | 10 => "a" | 11 => "b"
  | 12 => "c" | 13 => "d" | 14 => "e" | _ => "f"
  end%N%char.

Definition hex_value (c : ascii) : option N :=
  let n := N_of_ascii c in
  if ((48 <=? n) && (n <=? 57))%N then Some (n - 48)%N
  else if ((97 <=? n) && (n <=? 102))%N then Some (n - 87)%N
  else if ((65 <=? n) && (n <=? 70))%N then Some (n - 55)%N
  else None.

(** The escapes of [QuoteJSONString]: the quote, the backslash, the five
    short control escapes, [\u00XX] for the other code units below
    [0x20]; every other code unit is written as it is. *)
Definition escape_char (c : ascii) (k : string) : string :=
  let n := N_of_ascii c in
  if (n =? 34)%N then String "\" (String quotation_mark k)
  else if (n =? 92)%N then String "\" (String "\" k)
  else if (n =? 8)%N then String "\" (String "b" k)
  else if (n =? 9)%N then String "\" (String "t" k)
  else if (n =? 10)%N then String "\" (String "n" k)
  else if (n =? 12)%N then String "\" (String "f" k)
  else if (n =? 13)%N then String "\" (String "r" k)
  else if (n <? 32)%N then
    String "\" (String "u" (String "0" (String "0"
      (String (hex_digit (n / 16)) (String (hex_digit (n mod 16)) k)))))
  else String c k.

Fixpoint escape (s : string) (k : string) : string :=
  match s with
  | EmptyString => k
  | String c r => escape_char c (escape r k)
  end.

Definition quote (s : string) (k : string) : string :=
  String quotation_mark (escape s (String quotation_mark k)).

Definition unescape (e : ascii) : option ascii :=
  let n := N_of_ascii e in
  if (n =? 34)%N then Some e
  else if (n =? 92)%N then Some e
  else if (n =? 47)%N then Some e
  else if (n =? 98)%N then Some (ascii_of_N 8)
  else if (n =? 116)%N then Some (ascii_of_N 9)
  else if (n =? 110)%N then Some (ascii_of_N 10)
  else if (n =? 102)%N then Some (ascii_of_N 12)
  else if (n =? 114)%N then Some (ascii_of_N 13)
  else None.

(** [\uXXXX]; a code unit above [0xff] has no counterpart in the model. *)
Definition unhex4 (a b c d : ascii) : option ascii :=
  match hex_value a, hex_value b, hex_value c, hex_value d with
  | Some x, Some y, Some z, Some w =>
      let n := (x * 4096 + y * 256 + z * 16 + w)%N in
      if (n <? 256)%N then Some (ascii_of_N n) else None
  | _, _, _, _ => None
  end.

Definition push (c : ascii) (r : option (string * string))
  : option (string * string) :=
  match r with
  | Some (t, rest) => Some (String c t, rest)
  | None => None
  end.

(** The characters of a string literal after its opening quote, up to and
    including the closing one. *)
Fixpoint parse_chars (s : string) : option (string * string) :=
  match s with
  | EmptyString => None
  | String c r =>
      if (N_of_ascii c =? 34)%N then Some (EmptyString, r)
      else if (N_of_ascii c =? 92)%N then
        match r with
        | String e r1 =>
            if (N_of_ascii e =? 117)%N then
              match r1 with
              | String a (String b (String c' (String d r2))) =>
                  match unhex4 a b c' d with
                  | Some ch => push ch (parse_chars r2)
                  | None => None
                  end
              | _ => None
              end
            else
              match unescape e with
              | Some ch => push ch (parse_chars r1)
              | None => None
              end
        | EmptyString => None
        end
      else if (N_of_ascii c <? 32)%N then None
      else push c (parse_chars r)
  end.

(** ** Values *)

(** [emit v k] is the text of [v] followed by [k].  [-0] is written [0]
    and a number that is not finite is written [null]. *)
Fixpoint emit (v : json) (k : string) : string :=
  match v with
  | JNull => "null" ++ k
  | JBool true => "true" ++ k
  | JBool false => "false" ++ k
  | JNum z => number_text z ++ k
  | JStr s => quote s k
  | JArr l =>
      String "["
        match l with
        | [] => String "]" k
        | x :: l' =>
            emit x
              ((fix tail (l : list json) : string :=
                  match l with
                  | [] => String "]" k
                  | y :: l'' => String "," (emit y (tail l''))
                  end) l')
        end
  | JObj m =>
      String "{"
        match m with
        | [] => String "}" k
        | (key, x) :: m' =>
            quote key (String ":" (emit x
              ((fix tail (m : list (string * json)) : string :=
                  match m with
                  | [] => String "}" k
                  | (key', y) :: m'' =>
                      String "," (quote key' (String ":" (emit y (tail m''))))
                  end) m')))
        end
  | JNegZero => "0" ++ k
  | JInfinity _ => "null" ++ k
  end.

(** What is left of a value once it has been written and read: [-0] has
    become [0], a number that is not finite has become [null]. *)
Fixpoint json_normal (v : json) : json :=
  match v with
  | JNegZero => JNum 0
  | JInfinity _ => JNull
  | JArr l => JArr (map json_normal l)
  | JObj m => JObj (map (fun kv => (fst kv, json_normal (snd kv))) m)
  | _ => v
  end.

(** A value that JSON text carries unchanged. *)
Definition survives (v : json) : Prop := json_normal v = v.

(** [JSON.stringify] on a value without gaps or replacer. *)
Definition JSON_stringify (v : json) : string := emit v EmptyString.

(** [strip p s] removes the prefix [p] from [s]. *)
Fixpoint strip (p s : string) : option string :=
  match p with
  | EmptyString => Some s
  | String a p' =>
      match s with
      | String b s' => if (a =? b)%char then strip p' s' else None
      | EmptyString => None
      end
  end.

Definition literal (p : string) (v : json) (s : string)
  : option (json * string) :=
  match strip p s with
  | Some r => Some (v, r)
  | None => None
  end.

Definition parse_number (s : string) : option (json * string) :=
  let (t, r) := span_number s in
  match read_number t with
  | Some z => Some (JNum z, r)
  | None => None
  end.

(** A recursive-descent reader of compact JSON text (the form
    [JSON_stringify] writes); [fuel] bounds the nesting and the number of
    elements still to read. *)
Fixpoint parse_value (fuel : nat) (s : string) : option (json * string) :=
  match fuel with
  | O => None
  | S fuel' =>
      match s with
      | EmptyString => None
      | String c r =>
          let n := N_of_ascii c in
          if (n =? 110)%N then literal "ull" JNull r
          else if (n =? 116)%N then literal "rue" (JBool true) r
          else if (n =? 102)%N then literal "alse" (JBool false) r
          else if (n =? 34)%N then
            match parse_chars r with
            | Some (t, r') => Some (JStr t, r')
            | None => None
            end
          else if (n =? 91)%N then
            match r with
            | String c' r' =>
                if (N_of_ascii c' =? 93)%N then Some (JArr [], r')
                else
                  match parse_elems fuel' r with
                  | Some (l, r'') => Some (JArr l, r'')
                  | None => None
                  end
            | EmptyString => None
            end
          else if (n =? 123)%N then
            match r with
            | String c' r' =>
                if (N_of_ascii c' =? 125)%N then Some (JObj [], r')
                else
                  match parse_members fuel' r with
                  | Some (m, r'') => Some (JObj m, r'')
                  | None => None
                  end
            | EmptyString => None
            end
          else parse_number s
      end
  end

with parse_elems (fuel : nat) (s : string) : option (list json * string) :=
  match fuel with
  | O => None
  | S fuel' =>
      match parse_value fuel' s with
      | Some (v, String c r) =>
          if (N_of_ascii c =? 44)%N then
            match parse_elems fuel' r with
            | Some (l, r') => Some (v :: l, r')
            | None => None
            end
          else if (N_of_ascii c =? 93)%N then Some ([v], r)
          else None
      | _ => None
      end
  end

with parse_members (fuel : nat) (s : string)
  : option (list (string * json) * string) :=
  match fuel with
  | O => None
  | S fuel' =>
      match s with
      | String q s1 =>
          if (N_of_ascii q =? 34)%N then
            match parse_chars s1 with
            | Some (key, String colon s2) =>
                if (N_of_ascii colon =? 58)%N then
                  match parse_value fuel' s2 with
                  | Some (v, String c r) =>
                      if (N_of_ascii c =? 44)%N then
                        match parse_members fuel' r with
                        | Some (m, r') => Some ((key, v) :: m, r')
                        | None => None
                        end
                      else if (N_of_ascii c =? 125)%N then Some ([(key, v)], r)
                      else None
                  | _ => None
                  end
                else None
            | _ => None
            end
          else None
      | EmptyString => None
      end
  end.

(** The part of an array's text after its first element, and the same
    for an object: the local [tail] functions of [emit]. *)
Fixpoint emit_tail (l : list json) (k : string) : string :=
  match l with
  | [] => String "]" k
  | y :: l' => String "," (emit y (emit_tail l' k))
  end.

Fixpoint emit_members_tail (m : list (string * json)) (k : string) : string :=
  match m with
  | [] => String "}" k
  | (key, y) :: m' =>
      String "," (quote key (String ":" (emit y (emit_members_tail m' k))))
  end.

(** A bound on the fuel that reading a value back takes. *)
Fixpoint weight (v : json) : nat :=
  match v with
  | JArr l => S (fold_right (fun x n => S (weight x + n)) 0%nat l)
  | JObj m => S (fold_right (fun kv n => S (weight (snd kv) + n)) 0%nat m)
  | _ => 1%nat
  end.

Definition weight_elems (l : list json) : nat :=
  fold_right (fun x n => S (weight x + n)) 0%nat l.

Definition weight_members (m : list (string * json)) : nat :=
  fold_right (fun kv n => S (weight (snd kv) + n)) 0%nat m.

Fixpoint all_digits (s : string) : bool :=
  match s with
  | EmptyString => true
  | String c r => is_digit c && all_digits r
  end.

Definition number_start (c : ascii) : bool :=
  (c =? "-")%char || is_digit c.

(** [v] is read back from its text, whatever follows it. *)
Definition reads_back (v : json) : Prop :=
  forall fuel k,
    (weight v < fuel)%nat -> starts_digit k = false ->
    parse_value fuel (emit v k) = Some (json_normal v, k).

(** [JSON.parse] on compact text with integer numbers: [None] stands for
    the [SyntaxError] it throws. *)
Definition JSON_parse (s : string) : option json :=
  match parse_value (S (String.length s)) s with
  | Some (v, EmptyString) => Some v
  | _ => None
  end.

End Json.

Import Json.

(* ================================================================== *)
(** * The [orders] table *)
(* ================================================================== *)

Module Sqlite.

(** One row of [orders].  [items_json] and [special_requests] are
    nullable TEXT columns; the handlers guard both reads with [||]. *)
Record order_row : Type := mk_row {
  id : Z;
  table_no : string;
  items_json : option string;
  special_requests : option string;
  status : string;
  created_at : Z;
  archived : Z
}.

(** The table in rowid order, and the AUTOINCREMENT counter that
    [sqlite_sequence] keeps for it. *)
Record db : Type := mk_db {
  orders : list order_row;
  seq : Z
}.

Definition empty_db : db := {| orders := []; seq := 0 |}.

Definition max_rowid (rows : list order_row) : Z :=
  fold_right (fun r m => Z.max (id r) m) 0 rows.

Definition next_rowid (d : db) : Z :=
  Z.max (seq d) (max_rowid (orders d)) + 1.

(** [INSERT INTO orders (table_no, items_json, special_requests, status)
    VALUES (?,?,?,?)]; [created_at] and [archived] take their defaults.
    Returns the new table and [lastID]. *)
Definition insert_order (t j sr st : string) (now : Z) (d : db) : db * Z :=
  let i := next_rowid d in
  ({| orders := orders d ++
        [{| id := i; table_no := t; items_json := Some j;
            special_requests := Some sr; status := st;
            created_at := now; archived := 0 |}];
      seq := i |}, i).

(** [UPDATE orders SET ... WHERE id = ?]. *)
Definition update_where_id (f : order_row -> order_row) (i : Z) (d : db)
  : db * unit :=
  ({| orders := map (fun r => if id r =? i then f r else r) (orders d);
      seq := seq d |}, tt).

(** [SET items_json = ?, special_requests = ?, status = ?]. *)
Definition set_items_requests_status (j sr st : string) (r : order_row)
  : order_row :=
  {| id := id r; table_no := table_no r; items_json := Some j;
     special_requests := Some sr; status := st;
     created_at := created_at r; archived := archived r |}.

(** The comparison [? = "archived"] of the status statement.  SQLite
    reads a double-quoted token as an identifier whenever one of that name
    is in scope, and [orders] has a column [archived]: the bound text is
    compared with the row's INTEGER column, not with the text
    ['archived'].  A text equals an integer only when it is the text of
    that integer (of the statuses that reach the statement none is). *)
Definition param_eq_archived_column (p : string) (r : order_row) : bool :=
  match read_number p with
  | Some z => z =? archived r
  | None => false
  end.

(** [SET status = ?, archived = (CASE WHEN ? = "archived" THEN 1 ELSE
    archived END)]. *)
Definition set_status_case (p1 p2 : string) (r : order_row) : order_row :=
  {| id := id r; table_no := table_no r; items_json := items_json r;
     special_requests := special_requests r; status := p1;
     created_at := created_at r;
     archived := if param_eq_archived_column p2 r then 1 else archived r |}.

(** [SET status = ?, archived = 1]. *)
Definition set_status_archived (p1 : string) (r : order_row) : order_row :=
  {| id := id r; table_no := table_no r; items_json := items_json r;
     special_requests := special_requests r; status := p1;
     created_at := created_at r; archived := 1 |}.

(** [SELECT * FROM orders WHERE id = ?], first row. *)
Definition select_by_id (i : Z) (d : db) : option order_row :=
  find (fun r => id r =? i) (orders d).

(** [ORDER BY created_at DESC]: a stable insertion sort, so rows of equal
    [created_at] stay in rowid order. *)
Fixpoint insert_desc (r : order_row) (l : list order_row) : list order_row :=
  match l with
  | [] => [r]
  | x :: l' =>
      if created_at x <=? created_at r then r :: l
      else x :: insert_desc r l'
  end.

Definition order_by_created_at_desc (l : list order_row) : list order_row :=
  fold_right insert_desc [] l.

(** [SELECT * FROM orders WHERE archived = 0 ORDER BY created_at DESC]. *)
Definition select_active (d : db) : list order_row :=
  order_by_created_at_desc (filter (fun r => archived r =? 0) (orders d)).

(** [... WHERE status = ? AND archived = 0 ORDER BY created_at DESC]. *)
Definition select_active_with_status (st : string) (d : db)
  : list order_row :=
  order_by_created_at_desc
    (filter (fun r => (status r =? st)%string && (archived r =? 0))
            (orders d)).

(** [... WHERE table_no = ? AND archived = 0 ORDER BY created_at DESC
    LIMIT 1], first row. *)
Definition select_latest_active (t : string) (d : db) : option order_row :=
  hd_error
    (order_by_created_at_desc
       (filter (fun r => (table_no r =? t)%string && (archived r =? 0))
               (orders d))).

End Sqlite.

Import Sqlite.

(* ================================================================== *)
(** * The request handlers *)
(* ================================================================== *)

Module Server.

(** [{...r, items}]: a row with its items expanded. *)
Record order_view : Type := mk_view {
  row : order_row;
  items : json
}.

Inductive body : Type :=
| Err (error : string)
| Ok
| Ok_id (i : Z)
| Ok_order (order : order_view)
| Rows (rows : list order_view).

Record response : Type := mk_response {
  code : Z;
  payload : body
}.

Inductive effect : Type :=
| Db_run (after : db)
| Io_emit (name : string) (entity : order_view).

Inductive error : Type := TypeError | SyntaxError.

(** What a handler runs in: the store and the effects so far, oldest
    first. *)
Record world : Type := mk_world {
  store : db;
  log : list effect
}.

(** A computation returns a value or throws, and leaves a world. *)
Definition M (A : Type) : Type := world -> (A + error) * world.

Definition ret {A} (a : A) : M A := fun w => (inl a, w).

Definition throw {A} (e : error) : M A := fun w => (inr e, w).

Definition bind {A B} (m : M A) (k : A -> M B) : M B :=
  fun w =>
    match m w with
    | (inl a, w') => k a w'
    | (inr e, w') => (inr e, w')
    end.

Notation "x <- m ;; k" := (bind m (fun x => k))
  (at level 61, m at next level, right associativity).

(** [await runAsync(sql, params)]: the statement has run (and, in
    autocommit mode, committed) when the promise resolves. *)
Definition runAsync {A} (stmt : db -> db * A) : M A :=
  fun w =>
    let (d, a) := stmt (store w) in
    (inl a, {| store := d; log := log w ++ [Db_run d] |}).

(** [await getAsync(...)] and [await allAsync(...)]. *)
Definition getAsync {A} (query : db -> A) : M A :=
  fun w => (inl (query (store w)), w).

Definition allAsync {A} (query : db -> A) : M A := getAsync query.

Definition io_emit (name : string) (entity : order_view) : M unit :=
  fun w =>
    (inl tt, {| store := store w; log := log w ++ [Io_emit name entity] |}).

Definition res_json (b : body) : M response :=
  ret {| code := 200; payload := b |}.

Definition res_status_json (c : Z) (b : body) : M response :=
  ret {| code := c; payload := b |}.

(** [s || d] on a nullable text. *)
Definition text_or (s : option string) (d : string) : string :=
  match s with
  | Some t => if (t =? "")%string then d else t
  | None => d
  end.

(** [!!s] on a text that may be absent. *)
Definition truthy_text (s : option string) : bool :=
  match s with
  | Some t => negb (t =? "")%string
  | None => false
  end.

(** [!!v] on a value that may be absent. *)
Definition truthy_field (v : option json) : bool :=
  match v with
  | Some x => truthy x
  | None => false
  end.

Definition isArray_field (v : option json) : bool :=
  match v with
  | Some x => isArray x
  | None => false
  end.

(** [v.length === 0], for a [v] that passed [Array.isArray]. *)
Definition length_is_zero (v : option json) : bool :=
  match v with
  | Some (JArr []) => true
  | _ => false
  end.

(** The value of a field that is present; [undefined] reaches no use. *)
Definition field_value (v : option json) : json :=
  match v with
  | Some x => x
  | None => JNull
  end.

(** The elements of a field that passed [Array.isArray]. *)
Definition elements (v : option json) : list json :=
  match v with
  | Some (JArr l) => l
  | _ => []
  end.

Definition JSON_parse_or_throw (s : string) : M json :=
  match JSON_parse s with
  | Some v => ret v
  | None => throw SyntaxError
  end.

(** [r.items = JSON.parse(r.items_json || '[]')]; on [undefined] the
    property access throws. *)
Definition expand_items (r : option order_row) : M order_view :=
  match r with
  | Some r =>
      v <- JSON_parse_or_throw (text_or (items_json r) "[]") ;;
      ret {| row := r; items := v |}
  | None => throw TypeError
  end.

(** [r.items = items]. *)
Definition assign_items (r : option order_row) (v : json) : M order_view :=
  match r with
  | Some r => ret {| row := r; items := v |}
  | None => throw TypeError
  end.

(** [existingItems.concat(items)] for an array [items].  A receiver that
    is not an array has no array [concat]: the model throws there (a
    stored text that parses to a string, which would reach
    [String.prototype.concat], is not modelled). *)
Definition concat (existingItems : json) (new_items : list json) : M json :=
  match existingItems with
  | JArr l => ret (JArr (l ++ new_items))
  | _ => throw TypeError
  end.

Fixpoint mapM {A B} (f : A -> M B) (l : list A) : M (list B) :=
  match l with
  | [] => ret []
  | x :: l' => y <- f x ;; ys <- mapM f l' ;; ret (y :: ys)
  end.

(** [GET /api/orders?status=]. *)
Definition get_orders (status : option string) : M response :=
  rows <- (if truthy_text status
           then allAsync (select_active_with_status (text_or status ""))
           else allAsync select_active) ;;
  rows <- mapM (fun r => expand_items (Some r)) rows ;;
  res_json (Rows rows).

(** [POST /api/orders]; [now] is the value of [CURRENT_TIMESTAMP]. *)
Definition post_orders (table_no : option string) (items : option json)
    (special_requests : option string) (now : Z) : M response :=
  if negb (truthy_text table_no) || negb (truthy_field items)
     || negb (isArray_field items)
  then res_status_json 400 (Err "table_no and items[] required")
  else
    let items_json := JSON_stringify (field_value items) in
    lastID <- runAsync (insert_order (text_or table_no "") items_json
                          (text_or special_requests "") "placed" now) ;;
    newOrder <- getAsync (select_by_id lastID) ;;
    newOrder <- assign_items newOrder (field_value items) ;;
    _ <- io_emit "order:placed" newOrder ;;
    res_json (Ok_id lastID).

(** [POST /api/orders/:table_no/add-items]. *)
Definition post_add_items (table_no : string) (items : option json)
    (special_requests : option string) : M response :=
  if negb (truthy_field items) || negb (isArray_field items)
     || length_is_zero items
  then res_status_json 400 (Err "items[] required")
  else
    existing <- getAsync (select_latest_active table_no) ;;
    match existing with
    | None => res_status_json 404 (Err "no active order for this table")
    | Some existing =>
        existingItems <-
          JSON_parse_or_throw (text_or (items_json existing) "[]") ;;
        newItems <- concat existingItems (elements items) ;;
        let updatedRequests :=
          (text_or (Sqlite.special_requests existing) "" ++
           (if truthy_text special_requests
            then "; " ++ text_or special_requests ""
            else ""))%string in
        _ <- runAsync (update_where_id
                         (set_items_requests_status
                            (JSON_stringify newItems) updatedRequests "placed")
                         (id existing)) ;;
        updatedOrder <- getAsync (select_by_id (id existing)) ;;
        updatedOrder <- expand_items updatedOrder ;;
        _ <- io_emit "order:items-added" updatedOrder ;;
        res_json (Ok_order updatedOrder)
    end.

Definition statuses : list string :=
  ["placed"; "preparing"; "ready"; "billed"; "archived"].

(** [statuses.includes(status)]. *)
Definition includes (l : list string) (s : option string) : bool :=
  match s with
  | Some t => existsb (String.eqb t) l
  | None => false
  end.

(** [POST /api/orders/:id/status]. *)
Definition post_status (id : Z) (status : option string) : M response :=
  if negb (includes statuses status)
  then res_status_json 400 (Err "invalid status")
  else
    let st := text_or status "" in
    _ <- runAsync (update_where_id (set_status_case st st) id) ;;
    updated <- getAsync (select_by_id id) ;;
    updated <- expand_items updated ;;
    _ <- io_emit "order:status-changed" updated ;;
    res_json Ok.

(** [POST /api/orders/:id/bill]. *)
Definition post_bill (id : Z) : M response :=
  _ <- runAsync (update_where_id (set_status_archived "billed") id) ;;
  updated <- getAsync (select_by_id id) ;;
  updated <- expand_items updated ;;
  _ <- io_emit "order:billed" updated ;;
  res_json Ok.

(** A handler started on a store, with nothing logged yet. *)
Definition run {A} (m : M A) (d : db) : (A + error) * world :=
  m {| store := d; log := [] |}.

(** The mutating order requests. *)
Inductive call : Type :=
| Create (table_no : option string) (items : option json)
         (special_requests : option string) (now : Z)
| AppendItems (table_no : string) (items : option json)
              (special_requests : option string)
| SetStatus (id : Z) (status : option string)
| Bill (id : Z).

Definition handle (c : call) : M response :=
  match c with
  | Create t i sr now => post_orders t i sr now
  | AppendItems t i sr => post_add_items t i sr
  | SetStatus i st => post_status i st
  | Bill i => post_bill i
  end.


(** The items of a row as every handler reads them. *)
Definition stored_items (r : order_row) : option json :=
  JSON_parse (text_or (items_json r) "[]").

(** What the schema and the handlers maintain: [id] is a key, and the
    items of every row read as an array. *)
Record wf (d : db) : Prop := mk_wf {
  wf_key : NoDup (map id (orders d));
  wf_items :
    Forall (fun r => exists l, stored_items r = Some (JArr l)) (orders d)
}.

(** The most recently created active order of a table. *)
Definition active_at (t : string) (r : order_row) : Prop :=
  table_no r = t /\ archived r = 0.

End Server.

Import Server.

(* ================================================================== *)
(** * Notions used in the statements *)
(* ================================================================== *)

(** The common tail of the status and bill handlers, and of add-items:
    one UPDATE, a read of the row, the event, the response. *)
Definition update_and_publish (f : order_row -> order_row) (i : Z)
    (name : string) (b : order_view -> body) : M response :=
  _ <- runAsync (update_where_id f i) ;;
  updated <- getAsync (select_by_id i) ;;
  updated <- expand_items updated ;;
  _ <- io_emit name updated ;;
  res_json (b updated).

(** The special_requests text that add-items writes over the row [e]. *)
Definition appended_requests (e : order_row) (sr : option string) : string :=
  (text_or (Sqlite.special_requests e) "" ++
   (if truthy_text sr then "; " ++ text_or sr "" else ""))%string.

(** The row that [POST /api/orders] inserts into [d]. *)
Definition placed_row (d : db) (t : string) (l : list json)
    (sr : option string) (now : Z) : order_row :=
  {| id := next_rowid d; table_no := t;
     items_json := Some (JSON_stringify (JArr l));
     special_requests := Some (text_or sr ""); status := "placed";
     created_at := now; archived := 0 |}.

(** The row that add-items leaves in place of [e]. *)
Definition appended_row (e : order_row) (old new : list json)
    (sr : option string) : order_row :=
  set_items_requests_status (JSON_stringify (JArr (old ++ new)))
    (appended_requests e sr) "placed" e.

(** The rows that [GET /api/orders] selects. *)
Definition listed (status : option string) (d : db) : list order_row :=
  if truthy_text status
  then select_active_with_status (text_or status "") d
  else select_active d.










(** The stores that the mutating calls produce from the empty table. *)
Inductive reachable : db -> Prop :=
| reachable_empty : reachable empty_db
| reachable_call (c : call) (d : db) :
    reachable d -> reachable (store (snd (run (handle c) d))).

(** ** Sample stores *)

(** After [create("T1", [], "")] at time 0 on the empty table. *)
Definition db_T1 : db :=
  {| orders := [{| id := 1; table_no := "T1"; items_json := Some "[]";
                   special_requests := Some ""; status := "placed";
                   created_at := 0; archived := 0 |}];
     seq := 1 |}.

(** After [create("T9", [{"sku":"A"}], "no onions")] at time 100. *)
Definition db_T9 : db :=
  {| orders := [{| id := 1; table_no := "T9";
                   items_json :=
                     Some (JSON_stringify (JArr [JObj [("sku", JStr "A")]]));
                   special_requests := Some "no onions"; status := "placed";
                   created_at := 100; archived := 0 |}];
     seq := 1 |}.

(** Two active orders of table T5, created at times 10 and 20. *)
Definition db_T5 : db :=
  {| orders := [{| id := 1; table_no := "T5";
                   items_json := Some (JSON_stringify (JArr [JStr "soup"]));
                   special_requests := Some ""; status := "placed";
                   created_at := 10; archived := 0 |};
                {| id := 2; table_no := "T5";
                   items_json := Some (JSON_stringify (JArr [JStr "tea"]));
                   special_requests := Some ""; status := "placed";
                   created_at := 20; archived := 0 |}];
     seq := 2 |}.

(** Two active orders of table T5 created in the same second, the order
    of id 2 by the later call. *)
Definition db_tie : db :=
  {| orders := [{| id := 1; table_no := "T5";
                   items_json := Some (JSON_stringify (JArr [JStr "soup"]));
                   special_requests := Some ""; status := "placed";
                   created_at := 10; archived := 0 |};
                {| id := 2; table_no := "T5";
                   items_json := Some (JSON_stringify (JArr [JStr "tea"]));
                   special_requests := Some ""; status := "placed";
                   created_at := 10; archived := 0 |}];
     seq := 2 |}.

(** One active order whose special_requests is NULL. *)
Definition db_quiet : db :=
  {| orders := [{| id := 1; table_no := "T2"; items_json := Some "[]";
                   special_requests := None; status := "ready";
                   created_at := 5; archived := 0 |}];
     seq := 1 |}.

(** An active order whose [items_json] is NULL. *)
Definition db_null_items : db :=
  {| orders := [{| id := 4; table_no := "T3"; items_json := None;
                   special_requests := None; status := "placed";
                   created_at := 1; archived := 0 |}];
     seq := 4 |}.

(* ================================================================== *)
(** * Notions for the rest of the order handlers *)
(* ================================================================== *)

(** The WHERE clause of [GET /api/orders]. *)
Definition selects (status : option string) (r : order_row) : bool :=
  if truthy_text status
  then (Sqlite.status r =? text_or status "")%string && (archived r =? 0)
  else archived r =? 0.

(** [r] with its status replaced. *)
Definition with_status (st : string) (r : order_row) : order_row :=
  {| id := id r; table_no := table_no r; items_json := items_json r;
     special_requests := special_requests r; status := st;
     created_at := created_at r; archived := archived r |}.

(** The body field [items] is a non-empty array. *)
Definition valid_items (v : option json) : Prop :=
  exists x l, v = Some (JArr (x :: l)).

(** No later-created order stands after an earlier-created one. *)
Definition newest_first (rows : list order_row) : Prop :=
  StronglySorted (fun r r' => created_at r' <= created_at r) rows.

(* ================================================================== *)
(** * The [items] table and its handlers *)
(* ================================================================== *)

(** The item handlers name the [items] table only, the order handlers the
    [orders] table only; each side is modelled on its own table.  The
    body of [POST /api/items] is typed: [code], [name] and [category] are
    absent or strings, [price] is absent or a number.  Nothing in these
    handlers can throw. *)
Module Catalog.

Record item_row : Type := mk_item {
  id : Z;
  code : string;
  name : string;
  price : Z;
  category : string;
  created_at : Z
}.

Record items_db : Type := mk_items_db {
  items : list item_row;
  seq : Z
}.

Definition empty_items : items_db := {| items := []; seq := 0 |}.

Definition max_rowid (rows : list item_row) : Z :=
  fold_right (fun r m => Z.max (id r) m) 0 rows.

Definition next_rowid (d : items_db) : Z :=
  Z.max (seq d) (max_rowid (items d)) + 1.

(** [INSERT INTO items (code,name,price,category) VALUES (?,?,?,?)]. *)
Definition insert_item (c n : string) (p : Z) (cat : string) (now : Z)
    (d : items_db) : items_db * Z :=
  let i := next_rowid d in
  ({| items := items d ++
        [{| id := i; code := c; name := n; price := p; category := cat;
            created_at := now |}];
      seq := i |}, i).

(** [SELECT * FROM items WHERE id = ?], first row. *)
Definition select_item (i : Z) (d : items_db) : option item_row :=
  find (fun r => id r =? i) (items d).

(** [ORDER BY id DESC], by insertion. *)
Fixpoint insert_desc (r : item_row) (l : list item_row) : list item_row :=
  match l with
  | [] => [r]
  | x :: l' => if id x <=? id r then r :: l else x :: insert_desc r l'
  end.

(** [SELECT * FROM items ORDER BY id DESC]. *)
Definition select_items (d : items_db) : list item_row :=
  fold_right insert_desc [] (items d).

Inductive body : Type :=
| Err (error : string)
| Ok_id (i : Z)
| Rows (rows : list item_row).

Record response : Type := mk_response {
  status_code : Z;
  payload : body
}.

Inductive effect : Type :=
| Db_run (after : items_db)
| Io_emit (event : string) (entity : option item_row).

Record world : Type := mk_world {
  store : items_db;
  log : list effect
}.

Definition M (A : Type) : Type := world -> A * world.

Definition ret {A} (a : A) : M A := fun w => (a, w).

Definition bind {A B} (m : M A) (k : A -> M B) : M B :=
  fun w => let (a, w') := m w in k a w'.

Notation "x <~ m ;; k" := (bind m (fun x => k))
  (at level 61, m at next level, right associativity).

Definition runAsync {A} (stmt : items_db -> items_db * A) : M A :=
  fun w =>
    let (d, a) := stmt (store w) in
    (a, {| store := d; log := log w ++ [Db_run d] |}).

Definition getAsync {A} (query : items_db -> A) : M A :=
  fun w => (query (store w), w).

Definition allAsync {A} (query : items_db -> A) : M A := getAsync query.

Definition io_emit (event : string) (entity : option item_row) : M unit :=
  fun w =>
    (tt, {| store := store w; log := log w ++ [Io_emit event entity] |}).

(** [price || 0]. *)
Definition number_or_zero (p : option Z) : Z :=
  match p with
  | Some z => z
  | None => 0
  end.

(** [GET /api/items]. *)
Definition get_items : M response :=
  rows <~ allAsync select_items ;;
  ret {| status_code := 200; payload := Rows rows |}.

(** [POST /api/items]; [now] is the value of [CURRENT_TIMESTAMP]. *)
Definition post_items (code name : option string) (price : option Z)
    (category : option string) (now : Z) : M response :=
  if negb (truthy_text name)
  then ret {| status_code := 400; payload := Err "name required" |}
  else
    lastID <~ runAsync (insert_item (text_or code "") (text_or name "")
                          (number_or_zero price) (text_or category "")
                          now) ;;
    newItem <~ getAsync (select_item lastID) ;;
    _ <~ io_emit "item:added" newItem ;;
    ret {| status_code := 200; payload := Ok_id lastID |}.

Definition run {A} (m : M A) (d : items_db) : A * world :=
  m {| store := d; log := [] |}.

(** Largest id first. *)
Definition largest_id_first (rows : list item_row) : Prop :=
  StronglySorted (fun r r' => id r' <= id r) rows.

End Catalog.

(* ================================================================== *)
(** * JSON text reads back as the value *)
(* ================================================================== *)

Example stringify_sample :
  JSON_stringify (JArr [JArr [JNum 1; JNum (-12)]; JNull; JBool true;
                        JObj []; JArr []])
  = "[[1,-12],null,true,{},[]]".
Proof. reflexivity. Qed.

Example parse_sample :
  JSON_parse "[[1,-12],null,true,{},[]]"
  = Some (JArr [JArr [JNum 1; JNum (-12)]; JNull; JBool true;
                JObj []; JArr []]).
Proof. vm_compute. reflexivity. Qed.

Example stringify_object_sample :
  JSON_stringify (JObj [("sku", JStr "A"); ("qty", JNum 2)])
  = String "{" (String quotation_mark ("sku" ++
      String quotation_mark (String ":" (String quotation_mark ("A" ++
      String quotation_mark (String "," (String quotation_mark ("qty" ++
      String quotation_mark ":2}")))))))).
Proof. reflexivity. Qed.

Example stringify_escapes_sample :
  JSON_stringify (JStr (String quotation_mark "\" ++ String (ascii_of_N 10)
                          (String (ascii_of_N 1) "z")))
  = String quotation_mark (String "\" (String quotation_mark
      ("\\\n\u0001z" ++ String quotation_mark EmptyString))).
Proof. reflexivity. Qed.

Example parse_rejects_samples :
  JSON_parse "[1,]" = None /\ JSON_parse "01" = None
  /\ JSON_parse "[1" = None /\ JSON_parse "" = None.
Proof. vm_compute. repeat split. Qed.

Lemma parse_chars_escape_char (c : ascii) (k : string) :
  parse_chars (escape_char c k) = push c (parse_chars k).
Proof.
  destruct c as [[] [] [] [] [] [] [] []]; reflexivity.
Qed.

Lemma parse_chars_escape (s k : string) :
  parse_chars (escape s (String quotation_mark k)) = Some (s, k).
Proof.
  induction s as [|c s IH]; simpl.
  - reflexivity.
  - rewrite parse_chars_escape_char, IH. reflexivity.
Qed.

(** ** Numbers *)

Lemma span_digits_app (s k : string) :
  all_digits s = true -> starts_digit k = false ->
  span_digits (s ++ k) = (s, k).
Proof.
  intros Hs Hk. induction s as [|c s IH]; simpl in *.
  - destruct k as [|c k]; simpl in *; [reflexivity | now rewrite Hk].
  - apply andb_true_iff in Hs as [Hc Hs]. rewrite Hc, (IH Hs). reflexivity.
Qed.

Lemma all_digits_uint (d : Decimal.uint) :
  all_digits (NilEmpty.string_of_uint d) = true.
Proof. induction d; simpl; auto. Qed.

Lemma digit_not_minus (c : ascii) :
  is_digit c = true -> (c =? "-")%char = false.
Proof.
  intros H.
  destruct (Ascii.eqb_spec c "-"); [subst; discriminate | reflexivity].
Qed.

Lemma span_number_digits (c : ascii) (s k : string) :
  all_digits (String c s) = true -> starts_digit k = false ->
  span_number (String c s ++ k) = (String c s, k).
Proof.
  intros Hs Hk. pose proof Hs as Hs'. simpl in Hs'.
  apply andb_true_iff in Hs' as [Hc _].
  unfold span_number. change (String c s ++ k) with (String c (s ++ k)).
  cbv iota. rewrite (digit_not_minus c Hc).
  now apply (span_digits_app (String c s)).
Qed.

Lemma span_number_minus (s k : string) :
  all_digits s = true -> starts_digit k = false ->
  span_number (String "-" s ++ k) = (String "-" s, k).
Proof.
  intros Hs Hk. unfold span_number.
  change (String "-" s ++ k) with (String "-" (s ++ k)).
  cbv iota. rewrite Ascii.eqb_refl, span_digits_app by assumption.
  reflexivity.
Qed.

Lemma string_of_uint_head (d : Decimal.uint) :
  d <> Decimal.Nil ->
  exists c r, NilZero.string_of_uint d = String c r
              /\ all_digits (String c r) = true.
Proof.
  intros H.
  assert (E : NilZero.string_of_uint d = NilEmpty.string_of_uint d)
    by (destruct d; congruence || reflexivity).
  rewrite E. pose proof (all_digits_uint d) as A.
  destruct d; try congruence; simpl in *; eauto.
Qed.

Lemma number_text_head (z : Z) :
  exists c r, number_text z = String c r /\ number_start c = true.
Proof.
  unfold number_text. destruct z as [|p|p]; simpl.
  - exists "0"%char, "". split; reflexivity.
  - destruct (string_of_uint_head (Pos.to_uint p)) as (c & r & E & A).
    { apply Unsigned.to_uint_nonnil. }
    exists c, r. split; [exact E|]. simpl in A.
    apply andb_true_iff in A as [A _].
    unfold number_start. now rewrite A, orb_true_r.
  - eexists _, _. split; reflexivity.
Qed.

Lemma span_number_text (z : Z) (k : string) :
  starts_digit k = false ->
  span_number (number_text z ++ k) = (number_text z, k).
Proof.
  intros Hk. unfold number_text. destruct z as [|p|p]; simpl.
  - now apply (span_number_digits "0" "").
  - destruct (string_of_uint_head (Pos.to_uint p)) as (c & r & E & A).
    { apply Unsigned.to_uint_nonnil. }
    rewrite E. now apply span_number_digits.
  - destruct (string_of_uint_head (Pos.to_uint p)) as (c & r & E & A).
    { apply Unsigned.to_uint_nonnil. }
    rewrite E. now apply span_number_minus.
Qed.

Lemma read_number_text (z : Z) : read_number (number_text z) = Some z.
Proof.
  unfold read_number, number_text.
  rewrite NilZero.isi.
  - rewrite DecimalZ.of_to. fold (number_text z).
    now rewrite String.eqb_refl.
  - destruct z; simpl; try discriminate.
    intros [= H]. now apply Unsigned.to_uint_nonnil in H.
  - destruct z; simpl; try discriminate.
    intros [= H]. now apply Unsigned.to_uint_nonnil in H.
Qed.

(** ** Values *)

Lemma emit_arr_cons (x : json) (l : list json) (k : string) :
  emit (JArr (x :: l)) k = String "[" (emit x (emit_tail l k)).
Proof.
  simpl. do 2 f_equal. induction l as [|y l IH]; simpl; [reflexivity|].
  now rewrite IH.
Qed.

Lemma emit_obj_cons (key : string) (x : json) (m : list (string * json))
    (k : string) :
  emit (JObj ((key, x) :: m)) k
  = String "{" (quote key (String ":" (emit x (emit_members_tail m k)))).
Proof.
  simpl. do 4 f_equal. induction m as [|[key' y] m IH]; simpl; [reflexivity|].
  now rewrite IH.
Qed.

Lemma number_start_dispatch (c : ascii) :
  number_start c = true ->
  (N_of_ascii c =? 110)%N = false /\ (N_of_ascii c =? 116)%N = false
  /\ (N_of_ascii c =? 102)%N = false /\ (N_of_ascii c =? 34)%N = false
  /\ (N_of_ascii c =? 91)%N = false /\ (N_of_ascii c =? 123)%N = false
  /\ (N_of_ascii c =? 93)%N = false.
Proof.
  destruct c as [[] [] [] [] [] [] [] []]; intros H; try discriminate H;
    repeat split.
Qed.

Lemma emit_head (v : json) (k : string) :
  exists c r, emit v k = String c r /\ (N_of_ascii c =? 93)%N = false.
Proof.
  destruct v as [|[]|z|s|[|x l]|[|[key x] m]| |b];
    try (simpl; eexists _, _; split; reflexivity).
  - destruct (number_text_head z) as (c & r & E & Hc).
    exists c, (r ++ k). simpl. rewrite E. split; [reflexivity|].
    now apply number_start_dispatch.
Qed.

Lemma parse_value_S (fuel : nat) (c : ascii) (r : string) :
  parse_value (S fuel) (String c r) =
    let n := N_of_ascii c in
    if (n =? 110)%N then literal "ull" JNull r
    else if (n =? 116)%N then literal "rue" (JBool true) r
    else if (n =? 102)%N then literal "alse" (JBool false) r
    else if (n =? 34)%N then
      match parse_chars r with
      | Some (t, r') => Some (JStr t, r')
      | None => None
      end
    else if (n =? 91)%N then
      match r with
      | String c' r' =>
          if (N_of_ascii c' =? 93)%N then Some (JArr [], r')
          else
            match parse_elems fuel r with
            | Some (l, r'') => Some (JArr l, r'')
            | None => None
            end
      | EmptyString => None
      end
    else if (n =? 123)%N then
      match r with
      | String c' r' =>
          if (N_of_ascii c' =? 125)%N then Some (JObj [], r')
          else
            match parse_members fuel r with
            | Some (m, r'') => Some (JObj m, r'')
            | None => None
            end
      | EmptyString => None
      end
    else parse_number (String c r).
Proof. reflexivity. Qed.

Lemma parse_elems_S (fuel : nat) (s : string) :
  parse_elems (S fuel) s =
    match parse_value fuel s with
    | Some (v, String c r) =>
        if (N_of_ascii c =? 44)%N then
          match parse_elems fuel r with
          | Some (l, r') => Some (v :: l, r')
          | None => None
          end
        else if (N_of_ascii c =? 93)%N then Some ([v], r)
        else None
    | _ => None
    end.
Proof. reflexivity. Qed.

Lemma parse_members_S (fuel : nat) (q : ascii) (s1 : string) :
  parse_members (S fuel) (String q s1) =
    if (N_of_ascii q =? 34)%N then
      match parse_chars s1 with
      | Some (key, String colon s2) =>
          if (N_of_ascii colon =? 58)%N then
            match parse_value fuel s2 with
            | Some (v, String c r) =>
                if (N_of_ascii c =? 44)%N then
                  match parse_members fuel r with
                  | Some (m, r') => Some ((key, v) :: m, r')
                  | None => None
                  end
                else if (N_of_ascii c =? 125)%N then Some ([(key, v)], r)
                else None
            | _ => None
            end
          else None
      | _ => None
      end
    else None.
Proof. reflexivity. Qed.

Lemma starts_digit_emit_tail l k : starts_digit (emit_tail l k) = false.
Proof. destruct l; reflexivity. Qed.

Lemma starts_digit_emit_members_tail m k :
  starts_digit (emit_members_tail m k) = false.
Proof. destruct m as [|[key y] m]; reflexivity. Qed.

Lemma parse_elems_emit (l : list json) :
  Forall reads_back l ->
  forall x fuel k,
    reads_back x -> (weight_elems (x :: l) < fuel)%nat ->
    parse_elems fuel (emit x (emit_tail l k))
    = Some (map json_normal (x :: l), k).
Proof.
  induction 1 as [|y l Hy Hl IH]; intros x fuel k Hx Hf;
    (destruct fuel as [|fuel]; [inversion Hf|]);
    rewrite parse_elems_S; simpl in Hf.
  - rewrite Hx; [reflexivity | lia | reflexivity].
  - rewrite Hx; [|fold (weight_elems l) in Hf; lia | reflexivity].
    simpl emit_tail. cbv iota beta.
    change (N_of_ascii "," =? 44)%N with true. cbv iota.
    rewrite (IH y fuel k Hy); [reflexivity|].
    simpl. fold (weight_elems l) in *. lia.
Qed.

Lemma parse_members_emit (m : list (string * json)) :
  Forall (fun kv => reads_back (snd kv)) m ->
  forall key x fuel k,
    reads_back x -> (weight_members ((key, x) :: m) < fuel)%nat ->
    parse_members fuel
      (quote key (String ":" (emit x (emit_members_tail m k))))
    = Some (map (fun kv => (fst kv, json_normal (snd kv))) ((key, x) :: m),
            k).
Proof.
  induction 1 as [|[key' y] m Hy Hm IH]; intros key x fuel k Hx Hf;
    (destruct fuel as [|fuel]; [inversion Hf|]);
    unfold quote; rewrite parse_members_S;
    change (N_of_ascii quotation_mark =? 34)%N with true; cbv iota;
    rewrite parse_chars_escape;
    change (N_of_ascii ":" =? 58)%N with true; cbv iota;
    simpl in Hf.
  - rewrite Hx; [reflexivity | lia | reflexivity].
  - rewrite Hx; [|fold (weight_members m) in Hf; lia | reflexivity].
    simpl emit_members_tail. cbv iota beta.
    change (N_of_ascii "," =? 44)%N with true. cbv iota.
    simpl in Hy.
    rewrite (IH key' y fuel k Hy); [reflexivity|].
    simpl. fold (weight_members m) in *. lia.
Qed.

Lemma parse_number_emit (z : Z) (fuel : nat) (k : string) :
  starts_digit k = false ->
  parse_value (S fuel) (number_text z ++ k) = Some (JNum z, k).
Proof.
  intros Hk. destruct (number_text_head z) as (c & r & E & Hc).
  pose proof (span_number_text z k Hk) as Hs.
  rewrite E in *. change (String c r ++ k) with (String c (r ++ k)) in *.
  rewrite parse_value_S. cbv zeta.
  destruct (number_start_dispatch c Hc) as (-> & -> & -> & -> & -> & -> & _).
  unfold parse_number. rewrite Hs, <- E, read_number_text. reflexivity.
Qed.

Lemma parse_value_emit (v : json) : reads_back v.
Proof.
  induction v as [|b|z|s|l IH|m IH| |b] using json_ind;
    intros fuel k Hf Hk; (destruct fuel as [|fuel]; [inversion Hf|]).
  - reflexivity.
  - destruct b; reflexivity.
  - now apply parse_number_emit.
  - simpl emit. unfold quote. rewrite parse_value_S. simpl.
    rewrite parse_chars_escape. reflexivity.
  - destruct l as [|x l]; [reflexivity|].
    rewrite emit_arr_cons, parse_value_S.
    change (N_of_ascii "[") with 91%N. cbv zeta. simpl N.eqb. cbv iota.
    destruct (emit_head x (emit_tail l k)) as (c & r & E & Hc).
    rewrite E, Hc, <- E.
    inversion IH as [|? ? Hx Hl]; subst.
    rewrite (parse_elems_emit l Hl x fuel k Hx); [reflexivity|].
    simpl in Hf. unfold weight_elems. simpl. lia.
  - destruct m as [|[key x] m]; [reflexivity|].
    rewrite emit_obj_cons, parse_value_S.
    change (N_of_ascii "{") with 123%N. cbv zeta. simpl N.eqb. cbv iota.
    inversion IH as [|? ? Hx Hm]; subst. simpl in Hx.
    rewrite (parse_members_emit m Hm key x fuel k Hx).
    + unfold quote. change (N_of_ascii quotation_mark =? 125)%N with false.
      reflexivity.
    + simpl in Hf. unfold weight_members. simpl. lia.
  - exact (parse_number_emit 0 fuel k Hk).
  - reflexivity.
Qed.

Lemma length_append (s k : string) :
  String.length (s ++ k) = (String.length s + String.length k)%nat.
Proof. induction s; simpl; auto. Qed.

Lemma length_escape_char c k :
  (String.length k < String.length (escape_char c k))%nat.
Proof.
  destruct c as [[] [] [] [] [] [] [] []]; simpl; lia.
Qed.

Lemma length_escape s k :
  (String.length k <= String.length (escape s k))%nat.
Proof.
  induction s as [|c s IH]; simpl; [lia|].
  pose proof (length_escape_char c (escape s k)). lia.
Qed.

Lemma weight_le_length (v : json) :
  forall k, (weight v + String.length k <= String.length (emit v k))%nat.
Proof.
  induction v as [|b|z|s|l IH|m IH| |b] using json_ind; intros k;
    [| | | | | |simpl; lia|simpl; lia].
  - simpl. lia.
  - destruct b; simpl; lia.
  - destruct (number_text_head z) as (c & r & E & _).
    simpl emit. rewrite E, length_append. simpl. lia.
  - simpl. pose proof (length_escape s (String quotation_mark k)).
    simpl in *. lia.
  - destruct l as [|x l]; [simpl; lia|].
    rewrite emit_arr_cons.
    assert (T : forall x, (forall k, weight x + String.length k
                                 <= String.length (emit x k))%nat ->
                (weight_elems (x :: l) + String.length k
                 <= String.length (emit x (emit_tail l k)))%nat).
    { inversion IH as [|? ? _ Hl]; subst. clear IH.
      induction Hl as [|y l Hy Hl IHl]; intros x' Hx'.
      - specialize (Hx' (emit_tail [] k)). simpl in *. lia.
      - specialize (Hx' (emit_tail (y :: l) k)).
        specialize (IHl y Hy). simpl in *.
        unfold weight_elems in *. simpl in *. lia. }
    inversion IH as [|? ? Hx _]; subst.
    specialize (T x Hx). unfold weight_elems in T. simpl in *. lia.
  - destruct m as [|[key x] m]; [simpl; lia|].
    rewrite emit_obj_cons.
    assert (T : forall key x,
                (forall k, weight x + String.length k
                           <= String.length (emit x k))%nat ->
                (weight_members ((key, x) :: m) + String.length k
                 <= String.length
                      (quote key
                         (String ":" (emit x (emit_members_tail m k)))))%nat).
    { inversion IH as [|? ? _ Hm]; subst. clear IH.
      induction Hm as [|[key' y] m Hy Hm IHm]; intros key0 x' Hx'; unfold quote.
      - specialize (Hx' (emit_members_tail [] k)).
        pose proof (length_escape key0
          (String quotation_mark
             (String ":" (emit x' (emit_members_tail [] k))))).
        simpl in *. lia.
      - specialize (Hx' (emit_members_tail ((key', y) :: m) k)).
        specialize (IHm key' y Hy).
        pose proof (length_escape key0
          (String quotation_mark
             (String ":"
                (emit x' (emit_members_tail ((key', y) :: m) k))))).
        unfold weight_members in *. simpl in *. lia. }
    inversion IH as [|? ? Hx _]; subst.
    specialize (T key x Hx). unfold weight_members in T. simpl in *. lia.
Qed.

Theorem JSON_parse_stringify (v : json) :
  JSON_parse (JSON_stringify v) = Some (json_normal v).
Proof.
  unfold JSON_parse, JSON_stringify.
  rewrite parse_value_emit; [reflexivity| |reflexivity].
  pose proof (weight_le_length v EmptyString). simpl in *. lia.
Qed.

(** Nothing that [JSON.parse] returns holds [-0] or a number that is not
    finite. *)
Lemma parse_survives (fuel : nat) :
  (forall s v r, parse_value fuel s = Some (v, r) -> survives v)
  /\ (forall s l r, parse_elems fuel s = Some (l, r) ->
                   map json_normal l = l)
  /\ (forall s m r, parse_members fuel s = Some (m, r) ->
                   map (fun kv => (fst kv, json_normal (snd kv))) m = m).
Proof.
  unfold survives.
  induction fuel as [|fuel (IHv & IHe & IHm)];
    [repeat split; intros; discriminate|].
  repeat split.
  - intros [|c s] v r; [discriminate|]. rewrite parse_value_S. cbv zeta.
    unfold literal, parse_number.
    repeat match goal with
           | |- (if ?b then _ else _) = _ -> _ => destruct b
           end.
    + destruct (strip _ _); [intros [= <- _]; reflexivity | discriminate].
    + destruct (strip _ _); [intros [= <- _]; reflexivity | discriminate].
    + destruct (strip _ _); [intros [= <- _]; reflexivity | discriminate].
    + destruct (parse_chars s) as [[t r']|];
        [intros [= <- _]; reflexivity | discriminate].
    + destruct s as [|c' s']; [discriminate|].
      destruct (N_of_ascii c' =? 93)%N; [intros [= <- _]; reflexivity|].
      destruct (parse_elems fuel _) as [[l r'']|] eqn:E; [|discriminate].
      intros [= <- _]. simpl. f_equal. exact (IHe _ _ _ E).
    + destruct s as [|c' s']; [discriminate|].
      destruct (N_of_ascii c' =? 125)%N; [intros [= <- _]; reflexivity|].
      destruct (parse_members fuel _) as [[m r'']|] eqn:E; [|discriminate].
      intros [= <- _]. simpl. f_equal. exact (IHm _ _ _ E).
    + destruct (span_number _) as [t r']. destruct (read_number t);
        [intros [= <- _]; reflexivity | discriminate].
  - intros s l r. rewrite parse_elems_S.
    destruct (parse_value fuel s) as [[v [|c r']]|] eqn:E; try discriminate.
    destruct (N_of_ascii c =? 44)%N.
    + destruct (parse_elems fuel r') as [[l' r'']|] eqn:E'; [|discriminate].
      intros [= <- _]. simpl.
      now rewrite (IHv _ _ _ E), (IHe _ _ _ E').
    + destruct (N_of_ascii c =? 93)%N; [|discriminate].
      intros [= <- _]. simpl. now rewrite (IHv _ _ _ E).
  - intros [|q s1] m r; [discriminate|]. rewrite parse_members_S.
    destruct (N_of_ascii q =? 34)%N; [|discriminate].
    destruct (parse_chars s1) as [[key [|colon s2]]|]; try discriminate.
    destruct (N_of_ascii colon =? 58)%N; [|discriminate].
    destruct (parse_value fuel s2) as [[v [|c r']]|] eqn:E; try discriminate.
    destruct (N_of_ascii c =? 44)%N.
    + destruct (parse_members fuel r') as [[m' r'']|] eqn:E'; [|discriminate].
      intros [= <- _]. simpl.
      now rewrite (IHv _ _ _ E), (IHm _ _ _ E').
    + destruct (N_of_ascii c =? 125)%N; [|discriminate].
      intros [= <- _]. simpl. now rewrite (IHv _ _ _ E).
Qed.

Lemma JSON_parse_survives (s : string) (v : json) :
  JSON_parse s = Some v -> survives v.
Proof.
  unfold JSON_parse.
  destruct (parse_value _ s) as [[v' [|c r]]|] eqn:E; try discriminate.
  intros [= <-]. exact (proj1 (parse_survives _) _ _ _ E).
Qed.

Lemma survives_normal (v : json) : survives (json_normal v).
Proof.
  unfold survives.
  induction v as [|b|z|s|l IH|m IH| |b] using json_ind; try reflexivity.
  - simpl. f_equal.
    induction IH as [|x l Hx _ IHl]; simpl; [reflexivity|].
    now rewrite Hx, IHl.
  - simpl. f_equal.
    induction IH as [|[key x] m Hx _ IHm]; simpl; [reflexivity|].
    simpl in Hx. now rewrite Hx, IHm.
Qed.

Lemma survives_elements (l : list json) :
  survives (JArr l) <-> Forall survives l.
Proof.
  unfold survives. simpl. split.
  - intros [= H]. induction l as [|x l IH]; [constructor|].
    simpl in H. injection H as Hx Hl. constructor; auto.
  - intros H. f_equal. induction H as [|x l Hx _ IH]; simpl; [reflexivity|].
    now rewrite Hx, IH.
Qed.

Lemma survives_map (l : list json) :
  Forall survives l -> map json_normal l = l.
Proof.
  induction 1 as [|x l Hx _ IH]; simpl; [reflexivity|].
  unfold survives in Hx. now rewrite Hx, IH.
Qed.

(* ================================================================== *)
(** * The store *)
(* ================================================================== *)

Lemma stringify_nonempty (v : json) : (JSON_stringify v =? "")%string = false.
Proof.
  unfold JSON_stringify.
  destruct (emit_head v EmptyString) as (c & r & E & _). now rewrite E.
Qed.

Lemma text_or_stringify (v : json) (d : string) :
  text_or (Some (JSON_stringify v)) d = JSON_stringify v.
Proof. unfold text_or. now rewrite stringify_nonempty. Qed.

Lemma stored_items_stringify (r : order_row) (v : json) :
  items_json r = Some (JSON_stringify v) ->
  stored_items r = Some (json_normal v).
Proof.
  intros E. unfold stored_items.
  now rewrite E, text_or_stringify, JSON_parse_stringify.
Qed.

Lemma find_map_same_key (g : order_row -> order_row) (i : Z)
    (l : list order_row) :
  (forall r, id (g r) = id r) ->
  find (fun r => id r =? i) (map g l)
  = option_map g (find (fun r => id r =? i) l).
Proof.
  intros Hg. induction l as [|x l IH]; simpl; [reflexivity|].
  rewrite Hg. destruct (id x =? i); [reflexivity | exact IH].
Qed.

Lemma select_by_id_update (f : order_row -> order_row) (i j : Z) (d : db) :
  (forall r, id (f r) = id r) ->
  select_by_id i (fst (update_where_id f j d))
  = option_map (fun r => if id r =? j then f r else r) (select_by_id i d).
Proof.
  intros Hf. unfold select_by_id, update_where_id. simpl.
  apply find_map_same_key. intros r. destruct (id r =? j); auto.
Qed.

Lemma select_by_id_updated (f : order_row -> order_row) (i : Z) (d : db) :
  (forall r, id (f r) = id r) ->
  select_by_id i (fst (update_where_id f i d))
  = option_map f (select_by_id i d).
Proof.
  intros Hf. rewrite select_by_id_update by exact Hf.
  unfold select_by_id. destruct (find _ _) as [r|] eqn:E; [|reflexivity].
  apply find_some in E as [_ E]. simpl. now rewrite E.
Qed.

Lemma select_by_id_other (f : order_row -> order_row) (i j : Z) (d : db) :
  (forall r, id (f r) = id r) -> i <> j ->
  select_by_id i (fst (update_where_id f j d)) = select_by_id i d.
Proof.
  intros Hf Hij. rewrite select_by_id_update by exact Hf.
  unfold select_by_id. destruct (find _ _) as [r|] eqn:E; [|reflexivity].
  apply find_some in E as [_ E]. apply Z.eqb_eq in E. simpl.
  destruct (Z.eqb_spec (id r) j); [congruence | reflexivity].
Qed.

Lemma select_by_id_In (i : Z) (d : db) (r : order_row) :
  select_by_id i d = Some r -> In r (orders d) /\ id r = i.
Proof.
  intros E. apply find_some in E as [H E]. now apply Z.eqb_eq in E.
Qed.

Lemma select_by_id_self (i : Z) (d : db) (r : order_row) :
  select_by_id i d = Some r -> select_by_id (id r) d = Some r.
Proof.
  intros E. now destruct (select_by_id_In _ _ _ E) as [_ ->].
Qed.

Lemma select_by_id_key (d : db) (r : order_row) :
  NoDup (map id (orders d)) -> In r (orders d) ->
  select_by_id (id r) d = Some r.
Proof.
  unfold select_by_id. induction (orders d) as [|x l IH]; simpl;
    intros ND HIn; [contradiction|].
  inversion ND as [|? ? Hx ND']; subst.
  destruct HIn as [->|HIn].
  - now rewrite Z.eqb_refl.
  - destruct (Z.eqb_spec (id x) (id r)) as [E|_]; [|auto].
    exfalso. apply Hx. rewrite E. now apply in_map.
Qed.

Lemma update_no_match (f : order_row -> order_row) (i : Z) (d : db) :
  select_by_id i d = None -> fst (update_where_id f i d) = d.
Proof.
  destruct d as [rows s]. unfold select_by_id, update_where_id. simpl.
  intros H. f_equal.
  induction rows as [|x l IH]; simpl in *; [reflexivity|].
  destruct (id x =? i); [discriminate|]. now rewrite IH.
Qed.

Lemma max_rowid_ge (rows : list order_row) (r : order_row) :
  In r rows -> id r <= max_rowid rows.
Proof.
  induction rows as [|x l IH]; simpl; [contradiction|].
  intros [->|H]; [lia|]. specialize (IH H). lia.
Qed.

Lemma next_rowid_fresh (d : db) (r : order_row) :
  In r (orders d) -> id r < next_rowid d.
Proof.
  intros H. apply max_rowid_ge in H. unfold next_rowid. lia.
Qed.

Lemma find_app_fresh (i : Z) (l : list order_row) (x : order_row) :
  (forall r, In r l -> id r <> i) -> id x = i ->
  find (fun r => id r =? i) (l ++ [x]) = Some x.
Proof.
  intros Hl Hx. induction l as [|y l IH]; simpl.
  - now rewrite Hx, Z.eqb_refl.
  - destruct (Z.eqb_spec (id y) i) as [E|_].
    + exfalso. apply (Hl y); [now left | exact E].
    + apply IH. intros r Hr. apply Hl. now right.
Qed.

Lemma select_by_id_inserted (t j sr st : string) (now : Z) (d : db) :
  select_by_id (snd (insert_order t j sr st now d))
               (fst (insert_order t j sr st now d))
  = Some {| id := next_rowid d; table_no := t; items_json := Some j;
            special_requests := Some sr; status := st;
            created_at := now; archived := 0 |}.
Proof.
  unfold select_by_id, insert_order. simpl.
  apply find_app_fresh; [|reflexivity].
  intros r Hr. apply next_rowid_fresh in Hr. lia.
Qed.

(** ** [ORDER BY created_at DESC] *)

Lemma insert_desc_In (r x : order_row) (l : list order_row) :
  In x (insert_desc r l) <-> x = r \/ In x l.
Proof.
  induction l as [|y l IH]; simpl.
  - intuition.
  - destruct (created_at y <=? created_at r); simpl; [intuition|].
    rewrite IH. intuition.
Qed.

Lemma order_by_In (x : order_row) (l : list order_row) :
  In x (order_by_created_at_desc l) <-> In x l.
Proof.
  induction l as [|y l IH]; simpl; [tauto|].
  rewrite insert_desc_In, IH. intuition.
Qed.

Lemma insert_desc_head (r : order_row) (l : list order_row) :
  (forall y, hd_error l = Some y ->
             forall z, In z l -> created_at z <= created_at y) ->
  exists h, hd_error (insert_desc r l) = Some h
    /\ forall z, In z (insert_desc r l) -> created_at z <= created_at h.
Proof.
  intros Hl. destruct l as [|y l]; simpl.
  - exists r. split; [reflexivity|]. intros z [->|[]]. lia.
  - specialize (Hl y eq_refl).
    destruct (Z.leb_spec (created_at y) (created_at r)) as [Hle|Hlt].
    + exists r. split; [reflexivity|].
      intros z [->|Hz]; [lia|]. specialize (Hl z Hz). lia.
    + exists y. split; [reflexivity|].
      intros z [->|Hz]; [lia|]. apply insert_desc_In in Hz as [->|Hz].
      * lia.
      * apply Hl. now right.
Qed.

Lemma order_by_head_max (l : list order_row) (h : order_row) :
  hd_error (order_by_created_at_desc l) = Some h ->
  In h l /\ forall z, In z l -> created_at z <= created_at h.
Proof.
  intros Hh. split.
  - apply order_by_In. destruct (order_by_created_at_desc l); [discriminate|].
    injection Hh as ->. now left.
  - revert h Hh. induction l as [|x l IH]; intros h Hh z Hz; [contradiction|].
    simpl in Hh.
    destruct (insert_desc_head x (order_by_created_at_desc l)) as (h' & E & M).
    { intros y Hy z' Hz'. apply (IH y Hy). now apply order_by_In. }
    rewrite E in Hh. injection Hh as <-.
    apply M. apply insert_desc_In. destruct Hz as [->|Hz]; [now left|].
    right. now apply order_by_In.
Qed.

Lemma order_by_head_some (l : list order_row) (x : order_row) :
  In x l -> exists h, hd_error (order_by_created_at_desc l) = Some h.
Proof.
  intros H. apply order_by_In in H.
  destruct (order_by_created_at_desc l) as [|h t]; [contradiction|].
  now exists h.
Qed.

(** Rows created in the same second: the first in rowid order is listed
    first, and is the one that [LIMIT 1] keeps. *)
Example latest_of_equal_timestamps :
  option_map id
    (select_latest_active "T5"
       {| orders := [{| id := 1; table_no := "T5"; items_json := Some "[]";
                        special_requests := Some ""; status := "placed";
                        created_at := 10; archived := 0 |};
                     {| id := 2; table_no := "T5"; items_json := Some "[]";
                        special_requests := Some ""; status := "placed";
                        created_at := 10; archived := 0 |}];
          seq := 2 |}) = Some 1.
Proof. reflexivity. Qed.

Lemma select_latest_active_spec (t : string) (d : db) (e : order_row) :
  select_latest_active t d = Some e ->
  In e (orders d) /\ active_at t e
  /\ forall r, In r (orders d) -> active_at t r ->
               created_at r <= created_at e.
Proof.
  unfold select_latest_active, active_at. intros H.
  apply order_by_head_max in H as [HIn Hmax].
  apply filter_In in HIn as [HIn Hp].
  apply andb_true_iff in Hp as [Ht Ha].
  apply String.eqb_eq in Ht. apply Z.eqb_eq in Ha.
  repeat split; auto.
  intros r Hr [Hrt Hra]. apply Hmax. apply filter_In. split; [exact Hr|].
  apply andb_true_iff. split; [now apply String.eqb_eq | now apply Z.eqb_eq].
Qed.

Lemma select_latest_active_none (t : string) (d : db) :
  (forall r, In r (orders d) -> table_no r = t -> archived r <> 0) ->
  select_latest_active t d = None.
Proof.
  intros H. unfold select_latest_active.
  destruct (hd_error _) as [h|] eqn:E; [|reflexivity].
  apply order_by_head_max in E as [HIn _].
  apply filter_In in HIn as [HIn Hp].
  apply andb_true_iff in Hp as [Ht Ha].
  apply String.eqb_eq in Ht. apply Z.eqb_eq in Ha.
  exfalso. exact (H h HIn Ht Ha).
Qed.





(* ================================================================== *)
(** * The handlers, step by step *)
(* ================================================================== *)

Lemma text_or_empty (s : string) : text_or (Some s) "" = s.
Proof.
  unfold text_or. destruct (String.eqb_spec s ""); congruence.
Qed.

Lemma run_update_and_publish f i name b (w : world) :
  update_and_publish f i name b w =
    let d' := fst (update_where_id f i (store w)) in
    match select_by_id i d' with
    | None => (inr TypeError, {| store := d'; log := log w ++ [Db_run d'] |})
    | Some r =>
        match stored_items r with
        | Some v =>
            (inl {| code := 200; payload := b {| row := r; items := v |} |},
             {| store := d';
                log := (log w ++ [Db_run d'])
                       ++ [Io_emit name {| row := r; items := v |}] |})
        | None =>
            (inr SyntaxError, {| store := d'; log := log w ++ [Db_run d'] |})
        end
    end.
Proof.
  unfold update_and_publish, bind, runAsync, getAsync, expand_items,
    stored_items, JSON_parse_or_throw, bind, io_emit, res_json, ret, throw.
  simpl.
  destruct (select_by_id i _) as [r|]; [|reflexivity].
  destruct (JSON_parse _); reflexivity.
Qed.

Lemma post_bill_eq (i : Z) :
  post_bill i
  = update_and_publish (set_status_archived "billed") i "order:billed"
      (fun _ => Ok).
Proof. reflexivity. Qed.

Lemma post_status_eq (i : Z) (st : string) :
  includes statuses (Some st) = true ->
  post_status i (Some st)
  = update_and_publish (set_status_case st st) i "order:status-changed"
      (fun _ => Ok).
Proof.
  intros H. unfold post_status. rewrite H, text_or_empty. reflexivity.
Qed.

Lemma post_status_invalid (i : Z) (st : option string) (d : db) :
  includes statuses st = false ->
  run (post_status i st) d
  = (inl {| code := 400; payload := Err "invalid status" |},
     {| store := d; log := [] |}).
Proof. intros H. unfold post_status, run. now rewrite H. Qed.

Lemma post_add_items_invalid (t : string) (v : option json)
    (sr : option string) (d : db) :
  negb (truthy_field v) || negb (isArray_field v) || length_is_zero v = true ->
  run (post_add_items t v sr) d
  = (inl {| code := 400; payload := Err "items[] required" |},
     {| store := d; log := [] |}).
Proof. intros H. unfold post_add_items, run. now rewrite H. Qed.

Lemma post_add_items_not_found (t : string) (x : json) (l : list json)
    (sr : option string) (d : db) :
  select_latest_active t d = None ->
  run (post_add_items t (Some (JArr (x :: l))) sr) d
  = (inl {| code := 404;
            payload := Err "no active order for this table" |},
     {| store := d; log := [] |}).
Proof.
  intros H. unfold post_add_items, run, bind, getAsync. simpl. now rewrite H.
Qed.

Lemma post_add_items_found (t : string) (x : json) (l : list json)
    (sr : option string) (w : world) (e : order_row) :
  select_latest_active t (store w) = Some e ->
  post_add_items t (Some (JArr (x :: l))) sr w =
    match stored_items e with
    | Some (JArr old) =>
        update_and_publish
          (set_items_requests_status
             (JSON_stringify (JArr (old ++ x :: l)))
             (appended_requests e sr) "placed")
          (id e) "order:items-added" Ok_order w
    | Some _ => (inr TypeError, w)
    | None => (inr SyntaxError, w)
    end.
Proof.
  intros H. unfold post_add_items. simpl.
  unfold bind at 1. unfold getAsync. rewrite H.
  unfold bind at 1. unfold JSON_parse_or_throw, stored_items.
  destruct (JSON_parse _) as [v|]; [|reflexivity].
  unfold ret at 1. unfold bind at 1.
  destruct v; try reflexivity.
Qed.

Lemma post_orders_invalid (t : option string) (v : option json)
    (sr : option string) (now : Z) (d : db) :
  negb (truthy_text t) || negb (truthy_field v) || negb (isArray_field v)
    = true ->
  run (post_orders t v sr now) d
  = (inl {| code := 400; payload := Err "table_no and items[] required" |},
     {| store := d; log := [] |}).
Proof. intros H. unfold post_orders, run. now rewrite H. Qed.

Lemma post_orders_valid (t : string) (l : list json) (sr : option string)
    (now : Z) (d : db) :
  t <> "" ->
  let d' := {| orders := orders d ++ [placed_row d t l sr now];
               seq := next_rowid d |} in
  run (post_orders (Some t) (Some (JArr l)) sr now) d
  = (inl {| code := 200; payload := Ok_id (next_rowid d) |},
     {| store := d';
        log := [Db_run d';
                Io_emit "order:placed"
                  {| row := placed_row d t l sr now; items := JArr l |}] |}).
Proof.
  intros Ht d'. unfold post_orders.
  assert (E : truthy_text (Some t) = true).
  { simpl. destruct (String.eqb_spec t ""); [contradiction | reflexivity]. }
  rewrite E, text_or_empty.
  cbn [negb orb truthy_field truthy isArray_field isArray field_value].
  pose proof (select_by_id_inserted t (JSON_stringify (JArr l))
                (text_or sr "") "placed" now d) as S.
  unfold insert_order in S. simpl in S.
  unfold run, bind, runAsync, getAsync, insert_order. simpl.
  rewrite S. reflexivity.
Qed.

(** ** The invariant *)

Lemma wf_empty : wf empty_db.
Proof. split; simpl; constructor. Qed.

Lemma wf_insert (d : db) (t : string) (l : list json) (sr : option string)
    (now : Z) :
  wf d ->
  wf {| orders := orders d ++ [placed_row d t l sr now];
        seq := next_rowid d |}.
Proof.
  intros [K I]. split; simpl.
  - rewrite map_app. simpl.
    apply NoDup_app; [exact K | repeat constructor; intros [] |].
    intros i Hi [<-|[]]. simpl in Hi.
    apply in_map_iff in Hi as (r & Hr & HIn).
    apply next_rowid_fresh in HIn. lia.
  - apply Forall_app. split; [exact I|].
    constructor; [|constructor]. exists (map json_normal l).
    now apply (stored_items_stringify _ (JArr l)).
Qed.

Lemma wf_update (f : order_row -> order_row) (i : Z) (d : db) :
  (forall r, id (f r) = id r) ->
  (forall r, (exists l, stored_items r = Some (JArr l)) ->
             exists l, stored_items (f r) = Some (JArr l)) ->
  wf d -> wf (fst (update_where_id f i d)).
Proof.
  intros Hid Hit [K I]. split; simpl.
  - rewrite map_map.
    erewrite map_ext; [exact K|].
    intros r. simpl. destruct (id r =? i); auto.
  - apply Forall_map. eapply Forall_impl; [|exact I].
    intros r Hr. simpl. destruct (id r =? i); auto.
Qed.

Lemma stored_items_survive (r : order_row) (l : list json) :
  stored_items r = Some (JArr l) -> map json_normal l = l.
Proof.
  intros H. apply JSON_parse_survives in H. now injection H.
Qed.

Lemma wf_stored_items (d : db) (r : order_row) :
  wf d -> In r (orders d) -> exists l, stored_items r = Some (JArr l).
Proof.
  intros [_ I] HIn. rewrite Forall_forall in I. exact (I r HIn).
Qed.

Example db_T1_created :
  store (snd (run (post_orders (Some "T1") (Some (JArr [])) (Some "") 0)
                  empty_db)) = db_T1.
Proof. reflexivity. Qed.

Example db_T9_created :
  store (snd (run (post_orders (Some "T9")
                     (Some (JArr [JObj [("sku", JStr "A")]]))
                     (Some "no onions") 100) empty_db)) = db_T9.
Proof. reflexivity. Qed.

Example db_tie_created :
  store (snd (run (post_orders (Some "T5") (Some (JArr [JStr "tea"])) None 10)
                  (store (snd (run (post_orders (Some "T5")
                                      (Some (JArr [JStr "soup"])) None 10)
                                   empty_db))))) = db_tie.
Proof. reflexivity. Qed.

Example db_T5_created :
  store (snd (run (post_orders (Some "T5") (Some (JArr [JStr "tea"])) None 20)
                  (store (snd (run (post_orders (Some "T5")
                                      (Some (JArr [JStr "soup"])) None 10)
                                   empty_db))))) = db_T5.
Proof. reflexivity. Qed.

Lemma store_update_and_publish f i name b (d : db) :
  store (snd (run (update_and_publish f i name b) d))
  = fst (update_where_id f i d).
Proof.
  unfold run. rewrite run_update_and_publish.
  cbv zeta. cbn [store log app].
  destruct (select_by_id i _) as [r|]; [|reflexivity].
  destruct (stored_items r); reflexivity.
Qed.

Lemma statuses_not_numbers (st : string) :
  includes statuses (Some st) = true -> read_number st = None.
Proof.
  unfold includes, statuses. simpl. intros H.
  repeat (apply orb_true_iff in H as [H|H];
          [apply String.eqb_eq in H; subst st; reflexivity|]).
  discriminate H.
Qed.

Lemma set_status_case_archived (st : string) (r : order_row) :
  includes statuses (Some st) = true ->
  archived (set_status_case st st r) = archived r.
Proof.
  intros H. simpl. unfold param_eq_archived_column.
  now rewrite (statuses_not_numbers st H).
Qed.

Lemma missing_id_throws f i name b (d : db) :
  select_by_id i d = None ->
  (forall r, id (f r) = id r) ->
  run (update_and_publish f i name b) d
  = (inr TypeError, {| store := d; log := [Db_run d] |}).
Proof.
  intros H Hf. unfold run. rewrite run_update_and_publish.
  cbv zeta. cbn [store log app].
  rewrite (update_no_match f i d H), H. reflexivity.
Qed.

Lemma append_empty_r (s : string) : (s ++ "")%string = s.
Proof. induction s as [|c s IH]; simpl; [reflexivity | now rewrite IH]. Qed.

Lemma post_add_items_ok (d : db) (t : string) (x : json) (l : list json)
    (sr : option string) (e : order_row) (old : list json) :
  wf d ->
  select_latest_active t d = Some e ->
  stored_items e = Some (JArr old) ->
  let u := {| row := appended_row e old (x :: l) sr;
              items := JArr (old ++ map json_normal (x :: l)) |} in
  let d' := fst (update_where_id
                   (set_items_requests_status
                      (JSON_stringify (JArr (old ++ x :: l)))
                      (appended_requests e sr) "placed") (id e) d) in
  run (post_add_items t (Some (JArr (x :: l))) sr) d
  = (inl {| code := 200; payload := Ok_order u |},
     {| store := d'; log := [Db_run d'; Io_emit "order:items-added" u] |})
  /\ select_by_id (id e) d' = Some (row u)
  /\ stored_items (row u) = Some (JArr (old ++ map json_normal (x :: l))).
Proof.
  intros W He Hold u d'.
  assert (HIn : In e (orders d)) by now apply select_latest_active_spec in He.
  assert (Hsel : select_by_id (id e) d' = Some (row u)).
  { subst d'. rewrite select_by_id_updated by reflexivity.
    now rewrite (select_by_id_key d e (wf_key d W) HIn). }
  assert (Hst : stored_items (row u)
                = Some (JArr (old ++ map json_normal (x :: l)))).
  { rewrite (stored_items_stringify (row u) (JArr (old ++ x :: l)))
      by reflexivity.
    cbn [json_normal]. now rewrite map_app, (stored_items_survive e old Hold). }
  split; [|split; assumption].
  unfold run.
  rewrite (post_add_items_found t x l sr {| store := d; log := [] |} e He).
  rewrite Hold.
  rewrite run_update_and_publish. cbv zeta. cbn [store log app].
  fold d'. rewrite Hsel, Hst. reflexivity.
Qed.

Lemma post_add_items_cases (d : db) (t : string) (v : option json)
    (sr : option string) :
  wf d ->
  (run (post_add_items t v sr) d
   = (inl {| code := 400; payload := Err "items[] required" |},
      {| store := d; log := [] |})
   /\ ~ (exists x l, v = Some (JArr (x :: l))))
  \/ (exists x l, v = Some (JArr (x :: l))
      /\ select_latest_active t d = None
      /\ run (post_add_items t v sr) d
         = (inl {| code := 404;
                   payload := Err "no active order for this table" |},
            {| store := d; log := [] |}))
  \/ (exists x l e old, v = Some (JArr (x :: l))
      /\ select_latest_active t d = Some e
      /\ stored_items e = Some (JArr old)).
Proof.
  intros W.
  destruct v as [[|b|z|s|[|x l]|m| |b0]|];
    try (left; split;
         [apply post_add_items_invalid; simpl;
          now rewrite ?orb_true_r
         | intros (x & l & E); discriminate E]).
  right. destruct (select_latest_active t d) as [e|] eqn:He.
  - right. exists x, l, e.
    assert (HIn : In e (orders d))
      by now apply select_latest_active_spec in He.
    destruct (wf_stored_items d e W HIn) as [old Hold].
    now exists old.
  - left. exists x, l. repeat split. now apply post_add_items_not_found.
Qed.

Lemma post_orders_cases (t : option string) (v : option json) :
  (negb (truthy_text t) || negb (truthy_field v) || negb (isArray_field v)
     = true
   /\ ((t = None \/ t = Some "") \/ ~ (exists l, v = Some (JArr l))))
  \/ (exists t' l, t = Some t' /\ t' <> "" /\ v = Some (JArr l)).
Proof.
  destruct t as [t|]; [|left; split; [reflexivity | now left; left]].
  destruct (String.eqb_spec t "") as [->|Ht];
    [left; split; [reflexivity | now left; right]|].
  destruct v as [[|b|z|s|l|m| |b0]|];
    try (left; split; [simpl; now rewrite ?orb_true_r|];
         right; intros (l & E); discriminate E).
  right. now exists t, l.
Qed.

Lemma key_injective (d : db) (a b : order_row) :
  wf d -> In a (orders d) -> In b (orders d) -> id a = id b -> a = b.
Proof.
  intros W Ha Hb E.
  pose proof (select_by_id_key d a (wf_key d W) Ha) as Sa.
  pose proof (select_by_id_key d b (wf_key d W) Hb) as Sb.
  rewrite E in Sa. congruence.
Qed.

Lemma listed_In (status : option string) (d : db) (r : order_row) :
  In r (listed status d) -> In r (orders d).
Proof.
  unfold listed, select_active_with_status, select_active.
  destruct (truthy_text status); intros H;
    apply (proj1 (order_by_In _ _)) in H;
    now apply filter_In in H.
Qed.

Lemma bind_inl {A B} (m : M A) (k : A -> M B) (w w' : world) (a : A) :
  m w = (inl a, w') -> bind m k w = k a w'.
Proof. intros E. unfold bind. now rewrite E. Qed.

Lemma expand_items_some (r : order_row) (v : json) (w : world) :
  stored_items r = Some v ->
  expand_items (Some r) w = (inl {| row := r; items := v |}, w).
Proof.
  intros E. unfold expand_items, JSON_parse_or_throw, bind.
  unfold stored_items in E. now rewrite E.
Qed.

Lemma mapM_expand (rows : list order_row) (w : world) :
  Forall (fun r => exists v, stored_items r = Some v) rows ->
  exists us,
    mapM (fun r => expand_items (Some r)) rows w = (inl us, w)
    /\ Forall2 (fun r u => row u = r /\ stored_items r = Some (items u))
               rows us.
Proof.
  induction 1 as [|r rows [v Hv] _ (us & E & F)]; simpl.
  - exists []. split; [reflexivity | constructor].
  - exists ({| row := r; items := v |} :: us).
    rewrite (bind_inl _ _ w w _ (expand_items_some r v w Hv)).
    rewrite (bind_inl _ _ w w _ E).
    split; [reflexivity|]. constructor; [|exact F].
    split; [reflexivity | exact Hv].
Qed.

Lemma run_get_orders (status : option string) (d : db) :
  wf d ->
  exists us,
    run (get_orders status) d
    = (inl {| code := 200; payload := Rows us |}, {| store := d; log := [] |})
    /\ Forall2 (fun r u => row u = r /\ stored_items r = Some (items u))
               (listed status d) us.
Proof.
  intros W.
  destruct (mapM_expand (listed status d) {| store := d; log := [] |})
    as (us & E & F).
  { apply Forall_forall. intros r Hr. apply listed_In in Hr.
    destruct (wf_stored_items d r W Hr) as [l Hl]. now exists (JArr l). }
  exists us. split; [|exact F].
  unfold run, get_orders. unfold listed in E.
  destruct (truthy_text status);
    (erewrite bind_inl; [|reflexivity]); cbn [store];
    rewrite (bind_inl _ _ _ _ _ E); reflexivity.
Qed.




Lemma wf_handle (c : call) (d : db) :
  wf d -> wf (store (snd (run (handle c) d))).
Proof.
  intros W. destruct c as [t v sr now|t v sr|i st|i]; cbn [handle].
  - destruct (post_orders_cases t v) as [[C _]|(t' & l & -> & Ht & ->)].
    + now rewrite (post_orders_invalid t v sr now d C).
    + rewrite (post_orders_valid t' l sr now d Ht). now apply wf_insert.
  - destruct (post_add_items_cases d t v sr W)
      as [[E _]|[(x & l & _ & _ & E)|(x & l & e & old & -> & He & Hold)]].
    + now rewrite E.
    + now rewrite E.
    + destruct (post_add_items_ok d t x l sr e old W He Hold) as (E & _).
      rewrite E. cbn [snd store].
      apply wf_update; [reflexivity | | exact W].
      intros r _. exists (map json_normal (old ++ x :: l)).
      now apply (stored_items_stringify _ (JArr (old ++ x :: l))).
  - destruct (includes statuses st) eqn:C.
    + destruct st as [st|]; [|discriminate C].
      rewrite (post_status_eq i st C), store_update_and_publish.
      apply wf_update; [reflexivity | | exact W]. intros r H. exact H.
    + now rewrite (post_status_invalid i st d C).
  - rewrite post_bill_eq, store_update_and_publish.
    apply wf_update; [reflexivity | | exact W]. intros r H. exact H.
Qed.

Lemma wf_db_T5 : wf db_T5.
Proof.
  exact (wf_insert _ "T5" [JStr "tea"] None 20
           (wf_insert empty_db "T5" [JStr "soup"] None 10 wf_empty)).
Qed.

Lemma reachable_wf (d : db) : reachable d -> wf d.
Proof.
  induction 1 as [|c d _ IH]; [exact wf_empty | now apply wf_handle].
Qed.

(* ================================================================== *)
(** * What the specification says of the order operations *)
(* ================================================================== *)

(** C1 (the code departs from the specification).  On the store that holds one
    active order, id 1, [setStatus(1, "archived")] answers 200 and writes
    the status, yet the order's [archived] flag is still 0: the statement
    compares the bound text with the column [archived], never with the
    text ['archived'], so its CASE always takes the ELSE branch. *)
Theorem setStatus_archived_leaves_flag_clear :
  exists w,
    run (post_status 1 (Some "archived")) db_T1
    = (inl {| code := 200; payload := Ok |}, w)
    /\ option_map status (select_by_id 1 (store w)) = Some "archived"
    /\ option_map archived (select_by_id 1 db_T1) = Some 0
    /\ option_map archived (select_by_id 1 (store w)) = Some 0.
Proof. eexists. vm_compute. repeat split. Qed.

(** C2 (the code departs from the specification).  For an id that no order has,
    [setStatus] with a valid status and [bill] run their UPDATE, read
    [undefined] back and throw a TypeError on it: no 404 response is
    produced, here on the empty table with id 7. *)
Theorem setStatus_bill_missing_id_throw :
  run (post_status 7 (Some "ready")) empty_db
  = (inr TypeError, {| store := empty_db; log := [Db_run empty_db] |})
  /\ run (post_bill 7) empty_db
     = (inr TypeError, {| store := empty_db; log := [Db_run empty_db] |}).
Proof. split; reflexivity. Qed.

(** C3.  For an existing order, [bill] leaves it with status "billed" and
    [archived = 1], [setStatus(id, "billed")] leaves it with status
    "billed" and the [archived] it had; started on an order that is not
    archived, the two end with different flags. *)
Theorem bill_archives_setStatus_billed_keeps (d : db) (i : Z)
    (r : order_row) :
  select_by_id i d = Some r ->
  let billed := store (snd (run (post_bill i) d)) in
  let marked := store (snd (run (post_status i (Some "billed")) d)) in
  (exists r1, select_by_id i billed = Some r1
              /\ status r1 = "billed" /\ archived r1 = 1)
  /\ (exists r2, select_by_id i marked = Some r2
                 /\ status r2 = "billed" /\ archived r2 = archived r)
  /\ (archived r = 0 ->
      option_map archived (select_by_id i billed)
      <> option_map archived (select_by_id i marked)).
Proof.
  intros Hr billed marked.
  assert (Eb : select_by_id i billed = Some (set_status_archived "billed" r)).
  { subst billed. rewrite post_bill_eq, store_update_and_publish.
    rewrite select_by_id_updated by reflexivity. now rewrite Hr. }
  assert (Em : select_by_id i marked
               = Some (set_status_case "billed" "billed" r)).
  { subst marked. rewrite post_status_eq by reflexivity.
    rewrite store_update_and_publish.
    rewrite select_by_id_updated by reflexivity. now rewrite Hr. }
  rewrite Eb, Em. repeat split.
  - eexists. repeat split.
  - eexists. repeat split.
  - simpl. intros ->. discriminate.
Qed.

Lemma bill_archives_setStatus_billed_keeps_witness :
  select_by_id 1 db_T1 = Some (placed_row empty_db "T1" [] (Some "") 0)
  /\ option_map archived
       (select_by_id 1 (store (snd (run (post_bill 1) db_T1))))
     <> option_map archived
          (select_by_id 1
             (store (snd (run (post_status 1 (Some "billed")) db_T1)))).
Proof.
  split; [reflexivity|].
  apply (bill_archives_setStatus_billed_keeps db_T1 1
           (placed_row empty_db "T1" [] (Some "") 0)); reflexivity.
Defined.

(** C4 (as the code has it).  Every add-items call that succeeds found
    an active order [e] of the table and answers with the order read back
    after the write: its items are the items [e] had followed by the new
    ones as JSON text carries them, in order, which are the new ones
    themselves when none of them holds [-0] or a number that is not
    finite; its special_requests is the text [e] had, followed by "; "
    and the new text when that is non-empty and by nothing otherwise; its
    status is "placed".  On the example of the specification, creating
    with [{"sku":"A"}] and "no onions" and then adding [{"sku":"B"}] with
    "extra spicy" gives the items [{"sku":"A"},{"sku":"B"}] and the text
    "no onions; extra spicy". *)
Theorem appendItems_concatenates :
  (forall (d : db) (t : string) (v : option json) (sr : option string)
          (resp : response) (w : world),
      wf d ->
      run (post_add_items t v sr) d = (inl resp, w) ->
      code resp = 200 ->
      exists e old new u,
        select_latest_active t d = Some e
        /\ stored_items e = Some (JArr old)
        /\ v = Some (JArr new) /\ new <> []
        /\ payload resp = Ok_order u
        /\ select_by_id (id e) (store w) = Some (row u)
        /\ items u = JArr (old ++ map json_normal new)
        /\ (Forall survives new -> items u = JArr (old ++ new))
        /\ stored_items (row u) = Some (items u)
        /\ Sqlite.special_requests (row u)
           = Some (match sr with
                   | Some s =>
                       if (s =? "")%string
                       then text_or (Sqlite.special_requests e) ""
                       else text_or (Sqlite.special_requests e) ""
                            ++ "; " ++ s
                   | None => text_or (Sqlite.special_requests e) ""
                   end)
        /\ status (row u) = "placed")
  /\ (exists u w,
        run (post_add_items "T9" (Some (JArr [JObj [("sku", JStr "B")]]))
               (Some "extra spicy"))
            (store (snd (run (post_orders (Some "T9")
                                (Some (JArr [JObj [("sku", JStr "A")]]))
                                (Some "no onions") 100) empty_db)))
        = (inl {| code := 200; payload := Ok_order u |}, w)
        /\ items u = JArr [JObj [("sku", JStr "A")]; JObj [("sku", JStr "B")]]
        /\ Sqlite.special_requests (row u) = Some "no onions; extra spicy"
        /\ status (row u) = "placed").
Proof.
  split.
  - intros d t v sr resp w W Hrun Hcode.
    destruct (post_add_items_cases d t v sr W)
      as [[E _]|[(x & l & _ & _ & E)|(x & l & e & old & -> & He & Hold)]].
    + rewrite E in Hrun. injection Hrun as <- <-. discriminate Hcode.
    + rewrite E in Hrun. injection Hrun as <- <-. discriminate Hcode.
    + destruct (post_add_items_ok d t x l sr e old W He Hold)
        as (E & Hsel & Hst).
      rewrite E in Hrun. injection Hrun as <- <-.
      exists e, old, (x :: l),
        {| row := appended_row e old (x :: l) sr;
           items := JArr (old ++ map json_normal (x :: l)) |}.
      split; [exact He|]. split; [exact Hold|]. split; [reflexivity|].
      split; [discriminate|]. split; [reflexivity|].
      split; [exact Hsel|]. split; [reflexivity|].
      split.
      { intros F. cbn [items]. now rewrite (survives_map _ F). }
      split; [exact Hst|]. split; [|reflexivity].
      simpl. unfold appended_requests. f_equal.
      destruct sr as [s|]; simpl.
      * destruct (String.eqb_spec s ""); simpl.
        -- apply append_empty_r.
        -- reflexivity.
      * apply append_empty_r.
  - eexists _, _. vm_compute. repeat split.
Qed.

Lemma appendItems_concatenates_witness :
  wf db_T9
  /\ exists resp w,
       run (post_add_items "T9" (Some (JArr [JObj [("sku", JStr "B")]]))
              (Some "extra spicy")) db_T9 = (inl resp, w)
       /\ code resp = 200
       /\ exists e old new u,
            select_latest_active "T9" db_T9 = Some e
            /\ stored_items e = Some (JArr old)
            /\ Some (JArr [JObj [("sku", JStr "B")]]) = Some (JArr new)
            /\ new <> []
            /\ payload resp = Ok_order u
            /\ select_by_id (id e) (store w) = Some (row u)
            /\ items u = JArr (old ++ map json_normal new)
            /\ (Forall survives new -> items u = JArr (old ++ new))
            /\ stored_items (row u) = Some (items u)
            /\ Sqlite.special_requests (row u)
               = Some (text_or (Sqlite.special_requests e) ""
                       ++ "; " ++ "extra spicy")
            /\ status (row u) = "placed".
Proof.
  assert (W : wf db_T9)
    by exact (wf_insert empty_db "T9" [JObj [("sku", JStr "A")]]
                (Some "no onions") 100 wf_empty).
  split; [exact W|].
  eexists _, _. split; [vm_compute; reflexivity|]. split; [reflexivity|].
  apply (proj1 appendItems_concatenates db_T9 "T9"
           (Some (JArr [JObj [("sku", JStr "B")]])) (Some "extra spicy")
           _ _ W); reflexivity.
Defined.

(** C4, where the sentence of the specification fails.  Added to the
    order of table T9, the one item [Infinity] (what the body [1e999]
    reads as) is answered, and stored, as [null]: the answered items are
    not the existing items followed by the new ones. *)
Lemma appendItems_concatenates_fails_on_infinity :
  exists u w,
    run (post_add_items "T9" (Some (JArr [JInfinity false])) None) db_T9
    = (inl {| code := 200; payload := Ok_order u |}, w)
    /\ items u = JArr [JObj [("sku", JStr "A")]; JNull]
    /\ items u <> JArr ([JObj [("sku", JStr "A")]] ++ [JInfinity false]).
Proof.
  eexists _, _. split; [vm_compute; reflexivity|].
  split; [reflexivity | discriminate].
Qed.

(** C5.  When the order [r], of id [i], is the only order of its table
    and has been billed, it is archived, and an add-items call for that
    table with a non-empty array of items is answered 404 "no active
    order for this table"; the call writes and publishes nothing. *)
Theorem appendItems_after_bill_not_found (d : db) (i : Z) (r : order_row)
    (x : json) (l : list json) (sr : option string) :
  select_by_id i d = Some r ->
  (forall r', In r' (orders d) -> table_no r' = table_no r -> id r' = i) ->
  let billed := store (snd (run (post_bill i) d)) in
  select_by_id i billed = Some (set_status_archived "billed" r)
  /\ run (post_add_items (table_no r) (Some (JArr (x :: l))) sr) billed
     = (inl {| code := 404;
               payload := Err "no active order for this table" |},
        {| store := billed; log := [] |}).
Proof.
  intros Hr Honly billed. split.
  - subst billed. rewrite post_bill_eq, store_update_and_publish.
    rewrite select_by_id_updated by reflexivity. now rewrite Hr.
  - apply post_add_items_not_found.
    apply select_latest_active_none. intros r' HIn Ht.
    subst billed. rewrite post_bill_eq, store_update_and_publish in HIn.
    simpl in HIn. apply in_map_iff in HIn as (r0 & <- & HIn0).
    destruct (Z.eqb_spec (id r0) i) as [E|N].
    + simpl. discriminate.
    + exfalso. apply N. apply Honly; [exact HIn0|].
      destruct (id r0 =? i); exact Ht.
Qed.

Lemma appendItems_after_bill_not_found_witness :
  option_map archived
    (select_by_id 1 (store (snd (run (post_bill 1) db_T1)))) = Some 1
  /\ run (post_add_items "T1" (Some (JArr [JStr "tea"])) None)
         (store (snd (run (post_bill 1) db_T1)))
     = (inl {| code := 404;
               payload := Err "no active order for this table" |},
        {| store := store (snd (run (post_bill 1) db_T1)); log := [] |}).
Proof.
  destruct (appendItems_after_bill_not_found db_T1 1
              (placed_row empty_db "T1" [] (Some "") 0)
              (JStr "tea") [] None) as [A B].
  - reflexivity.
  - intros r' [<-|[]] _. reflexivity.
  - split; [|exact B]. cbv zeta in A. now rewrite A.
Defined.

(** C6.  [create] always answers, with 400 or with 200, and it answers 400
    exactly when [table_no] is missing or empty or [items] is not an
    array; [create("T1", [], "")] is accepted on every store and the order
    it writes has the empty sequence as its items. *)
Theorem create_validation :
  (forall (d : db) (t : option string) (v : option json)
          (sr : option string) (now : Z),
      exists resp w,
        run (post_orders t v sr now) d = (inl resp, w)
        /\ (code resp = 400 \/ code resp = 200)
        /\ (code resp = 400 <->
            (t = None \/ t = Some "") \/ ~ (exists l, v = Some (JArr l))))
  /\ (forall (d : db) (now : Z),
        exists i w r,
          run (post_orders (Some "T1") (Some (JArr [])) (Some "") now) d
          = (inl {| code := 200; payload := Ok_id i |}, w)
          /\ select_by_id i (store w) = Some r
          /\ stored_items r = Some (JArr [])
          /\ log w = [Db_run (store w);
                      Io_emit "order:placed" {| row := r; items := JArr [] |}]).
Proof.
  split.
  - intros d t v sr now.
    destruct (post_orders_cases t v) as [[C I]|(t' & l & -> & Ht & ->)].
    + eexists _, _. split; [now apply post_orders_invalid|].
      split; [now left|]. split; [intros _; exact I | reflexivity].
    + eexists _, _. split; [now apply post_orders_valid|].
      split; [now right|]. split; [discriminate|].
      intros [[E|E]|N]; [discriminate E | congruence |].
      exfalso. apply N. now exists l.
  - intros d now. eexists _, _, _.
    rewrite post_orders_valid by discriminate. cbn [store log].
    split; [reflexivity|].
    split; [exact (select_by_id_inserted "T1" (JSON_stringify (JArr []))
                     "" "placed" now d)|].
    split; reflexivity.
Qed.




(** C8 (as the code has it).  After [create] has written an order with
    the items [l], a list of the active orders, unfiltered or filtered to
    "placed", succeeds, contains the new order, and shows as the items of
    that order what JSON text has carried of [l]: [l] itself when none of
    its items holds [-0] or a number that is not finite. *)
Theorem create_listActive_roundtrip (d : db) (t : string) (l : list json)
    (sr : option string) (now : Z) (status : option string) :
  wf d -> t <> "" ->
  truthy_text status = false \/ status = Some "placed" ->
  exists i w us w',
    run (post_orders (Some t) (Some (JArr l)) sr now) d
    = (inl {| code := 200; payload := Ok_id i |}, w)
    /\ run (get_orders status) (store w)
       = (inl {| code := 200; payload := Rows us |}, w')
    /\ (exists u, In u us /\ id (row u) = i)
    /\ (forall u, In u us -> id (row u) = i ->
          items u = JArr (map json_normal l)
          /\ (Forall survives l -> items u = JArr l)).
Proof.
  intros W Ht Hs.
  pose (r0 := placed_row d t l sr now).
  pose (d' := {| orders := orders d ++ [r0]; seq := next_rowid d |}).
  assert (W' : wf d') by now apply wf_insert.
  destruct (run_get_orders status d' W') as (us & E & F).
  eexists (next_rowid d), _, us, _.
  split; [now apply post_orders_valid|]. cbn [store].
  split; [exact E|].
  assert (H0 : In r0 (orders d')) by (simpl; apply in_or_app; right; now left).
  assert (HL : In r0 (listed status d')).
  { unfold listed, select_active_with_status, select_active.
    destruct Hs as [->| ->]; [|simpl truthy_text; cbv iota];
      apply order_by_In, filter_In; (split; [exact H0 | reflexivity]). }
  assert (Hst : stored_items r0 = Some (JArr (map json_normal l)))
    by now apply (stored_items_stringify r0 (JArr l)).
  split.
  - clear - F HL. induction F as [|r u rows us [Hu _] _ IH];
      [contradiction|].
    destruct HL as [->|HL].
    + exists u. split; [now left | now rewrite Hu].
    + destruct (IH HL) as (u' & Hu' & E'). exists u'.
      split; [now right | exact E'].
  - intros u Hu Hid.
    assert (R : In (row u) (listed status d')
                /\ stored_items (row u) = Some (items u)).
    { clear - F Hu. induction F as [|r u' rows us [Hr Hi] _ IH];
        [contradiction|].
      destruct Hu as [->|Hu].
      - subst r. split; [now left | exact Hi].
      - destruct (IH Hu) as [A B]. split; [now right | exact B]. }
    destruct R as [RIn RSt]. apply listed_In in RIn.
    assert (row u = r0) by now apply (key_injective d' (row u) r0 W').
    assert (Ei : items u = JArr (map json_normal l)) by congruence.
    split; [exact Ei|]. intros S. now rewrite Ei, (survives_map l S).
Qed.

Lemma create_listActive_roundtrip_witness :
  exists i w us w',
    run (post_orders (Some "T9") (Some (JArr [JObj [("sku", JStr "B")]]))
           None 200) db_T9
    = (inl {| code := 200; payload := Ok_id i |}, w)
    /\ run (get_orders None) (store w)
       = (inl {| code := 200; payload := Rows us |}, w')
    /\ (exists u, In u us /\ id (row u) = i)
    /\ (forall u, In u us -> id (row u) = i ->
          items u = JArr (map json_normal [JObj [("sku", JStr "B")]])
          /\ (Forall survives [JObj [("sku", JStr "B")]] ->
              items u = JArr [JObj [("sku", JStr "B")]])).
Proof.
  apply (create_listActive_roundtrip db_T9 "T9" [JObj [("sku", JStr "B")]]
           None 200 None).
  - exact (wf_insert empty_db "T9" [JObj [("sku", JStr "A")]]
             (Some "no onions") 100 wf_empty).
  - discriminate.
  - left. reflexivity.
Defined.

(** C8, where the sentence of the specification fails.  An order created
    with the one item [Infinity] (what the body [1e999] reads as) is
    listed with the one item [null]: the items read are not the items
    written. *)
Lemma create_listActive_roundtrip_fails_on_infinity :
  exists w us w',
    run (post_orders (Some "T1") (Some (JArr [JInfinity false])) None 0)
        empty_db
    = (inl {| code := 200; payload := Ok_id 1 |}, w)
    /\ run (get_orders None) (store w)
       = (inl {| code := 200; payload := Rows us |}, w')
    /\ map (fun u => (id (row u), items u)) us = [(1, JArr [JNull])]
    /\ JArr [JNull] <> JArr [JInfinity false].
Proof.
  eexists _, _, _. split; [vm_compute; reflexivity|].
  split; [vm_compute; reflexivity|]. split; [reflexivity | discriminate].
Qed.







(** C10.  When the order that add-items selects has no special_requests
    text (NULL or the empty text) and the call brings a non-empty one, the
    call succeeds and the text stored and returned is "; " followed by the
    new text. *)
Theorem appendItems_separator_leads (d : db) (t : string) (x : json)
    (l : list json) (s : string) (e : order_row) :
  wf d ->
  select_latest_active t d = Some e ->
  Sqlite.special_requests e = None \/ Sqlite.special_requests e = Some "" ->
  s <> "" ->
  exists u w,
    run (post_add_items t (Some (JArr (x :: l))) (Some s)) d
    = (inl {| code := 200; payload := Ok_order u |}, w)
    /\ select_by_id (id e) (store w) = Some (row u)
    /\ Sqlite.special_requests (row u) = Some ("; " ++ s).
Proof.
  intros W He Hsr Hs.
  assert (HIn : In e (orders d)) by now apply select_latest_active_spec in He.
  destruct (wf_stored_items d e W HIn) as [old Hold].
  destruct (post_add_items_ok d t x l (Some s) e old W He Hold)
    as (E & Hsel & _).
  eexists _, _. split; [exact E|]. cbn [store]. split; [exact Hsel|].
  cbn [row appended_row set_items_requests_status Sqlite.special_requests].
  unfold appended_requests. rewrite text_or_empty.
  assert (T : truthy_text (Some s) = true).
  { simpl. destruct (String.eqb_spec s ""); [contradiction | reflexivity]. }
  rewrite T. destruct Hsr as [-> | ->]; reflexivity.
Qed.

Lemma appendItems_separator_leads_witness :
  exists u w,
    run (post_add_items "T2" (Some (JArr [JStr "tea"])) (Some "extra spicy"))
        db_quiet
    = (inl {| code := 200; payload := Ok_order u |}, w)
    /\ select_by_id 1 (store w) = Some (row u)
    /\ Sqlite.special_requests (row u) = Some "; extra spicy".
Proof.
  apply (appendItems_separator_leads db_quiet "T2" (JStr "tea") []
           "extra spicy"
           {| id := 1; table_no := "T2"; items_json := Some "[]";
              special_requests := None; status := "ready";
              created_at := 5; archived := 0 |}).
  - split; simpl.
    + repeat constructor. intros [].
    + repeat constructor. now exists [].
  - reflexivity.
  - left. reflexivity.
  - discriminate.
Defined.

(* ================================================================== *)
(** * More of the order handlers *)
(* ================================================================== *)

Lemma listed_selects (status : option string) (d : db) :
  listed status d
  = order_by_created_at_desc (filter (selects status) (orders d)).
Proof.
  unfold listed, selects, select_active_with_status, select_active.
  destruct (truthy_text status); reflexivity.
Qed.

Lemma insert_desc_perm (r : order_row) (l : list order_row) :
  Permutation (insert_desc r l) (r :: l).
Proof.
  induction l as [|x l IH]; simpl; [reflexivity|].
  destruct (created_at x <=? created_at r); [reflexivity|].
  rewrite IH. apply perm_swap.
Qed.

Lemma order_by_perm (l : list order_row) :
  Permutation (order_by_created_at_desc l) l.
Proof.
  induction l as [|x l IH]; simpl; [reflexivity|].
  rewrite insert_desc_perm. now constructor.
Qed.

Lemma insert_desc_sorted (r : order_row) (l : list order_row) :
  newest_first l -> newest_first (insert_desc r l).
Proof.
  unfold newest_first. induction 1 as [|x l Hl IH Hx]; simpl.
  - repeat constructor.
  - destruct (Z.leb_spec (created_at x) (created_at r)) as [Hle|Hlt].
    + constructor; [now constructor|].
      constructor; [exact Hle|].
      eapply Forall_impl; [|exact Hx]. intros y Hy. simpl in Hy. lia.
    + constructor; [exact IH|].
      apply Forall_forall. intros y Hy.
      apply insert_desc_In in Hy as [->|Hy]; [lia|].
      rewrite Forall_forall in Hx. now apply Hx.
Qed.

Lemma order_by_sorted (l : list order_row) :
  newest_first (order_by_created_at_desc l).
Proof.
  induction l as [|x l IH]; simpl; [constructor|].
  now apply insert_desc_sorted.
Qed.

(** What [rows.map(r => ({...r, items: JSON.parse(...)}))] gives: every
    row expanded, or the SyntaxError of the first row that does not
    read. *)
Lemma mapM_expand_world (rows : list order_row) (w : world) :
  snd (mapM (fun r => expand_items (Some r)) rows w) = w.
Proof.
  induction rows as [|r rows IH]; simpl; [reflexivity|].
  unfold bind at 1. unfold expand_items, JSON_parse_or_throw.
  unfold bind at 1.
  destruct (JSON_parse _) as [v|]; simpl; [|reflexivity].
  unfold bind at 1.
  specialize IH. destruct (mapM _ rows w) as [[us|e] w'] eqn:E;
    simpl in *; exact IH.
Qed.

Lemma mapM_expand_inl (rows : list order_row) (w w' : world)
    (us : list order_view) :
  mapM (fun r => expand_items (Some r)) rows w = (inl us, w') ->
  map row us = rows
  /\ Forall (fun u => stored_items (row u) = Some (items u)) us.
Proof.
  revert us w'. induction rows as [|r rows IH]; simpl; intros us w' H.
  - injection H as <- _. split; constructor.
  - unfold bind at 1 in H. unfold expand_items, JSON_parse_or_throw in H.
    unfold bind at 1 in H.
    destruct (JSON_parse _) as [v|] eqn:Ev; simpl in H; [|discriminate H].
    unfold bind at 1 in H.
    destruct (mapM _ rows w) as [[us'|e] w''] eqn:E; [|discriminate H].
    simpl in H. injection H as <- _.
    destruct (IH us' w'' eq_refl) as [M F].
    split; [simpl; now rewrite M|]. constructor; [exact Ev | exact F].
Qed.

Lemma mapM_expand_inr (rows : list order_row) (w : world) :
  (exists w', mapM (fun r => expand_items (Some r)) rows w
              = (inr SyntaxError, w'))
  <-> Exists (fun r => stored_items r = None) rows.
Proof.
  induction rows as [|r rows IH]; simpl.
  - split; [intros [w' H]; discriminate H | intros H; inversion H].
  - unfold bind at 1. unfold expand_items, JSON_parse_or_throw.
    unfold bind at 1. unfold stored_items at 1.
    destruct (JSON_parse _) as [v|] eqn:Ev; simpl.
    + unfold bind at 1.
      destruct (mapM _ rows w) as [[us'|e] w''] eqn:E; simpl.
      * split; [intros [w' H]; discriminate H|].
        intros H. inversion H as [? ? H0|? ? H0]; subst.
        -- unfold stored_items in H0. congruence.
        -- apply IH in H0 as [w' H0]. discriminate H0.
      * split.
        -- intros [w' H]. injection H as -> _. apply Exists_cons_tl.
           apply IH. now exists w''.
        -- intros H. inversion H as [? ? H0|? ? H0]; subst.
           ++ unfold stored_items in H0. congruence.
           ++ apply IH in H0 as [w' H0]. injection H0 as -> _.
              now exists w''.
    + split; [intros _; now apply Exists_cons_hd | intros _; eauto].
Qed.

Lemma mapM_expand_error (rows : list order_row) (w w' : world) (e : error) :
  mapM (fun r => expand_items (Some r)) rows w = (inr e, w') ->
  e = SyntaxError.
Proof.
  revert w'. induction rows as [|r rows IH]; simpl; intros w' E;
    [discriminate E|].
  unfold bind at 1 in E. unfold expand_items, JSON_parse_or_throw in E.
  unfold bind at 1 in E.
  destruct (JSON_parse _) as [v|]; simpl in E; [|now injection E as <- _].
  unfold bind at 1 in E.
  destruct (mapM _ rows w) as [[us'|e'] w''] eqn:E'; simpl in E;
    [discriminate E|].
  injection E as <- _. exact (IH _ eq_refl).
Qed.

Lemma run_get_orders_eq (status : option string) (d : db) :
  run (get_orders status) d
  = match mapM (fun r => expand_items (Some r)) (listed status d)
            {| store := d; log := [] |} with
    | (inl us, w) => (inl {| code := 200; payload := Rows us |}, w)
    | (inr e, w) => (inr e, w)
    end.
Proof.
  unfold run, get_orders, listed.
  destruct (truthy_text status);
    (erewrite bind_inl; [|reflexivity]); cbn [store];
    unfold bind; destruct (mapM _ _ _) as [[us|e] w]; reflexivity.
Qed.

(* ================================================================== *)
(** * Listing *)
(* ================================================================== *)

(** X1.  [GET /api/orders] reads only: whatever the filter and the store,
    and whether it answers or throws, it leaves the store as it was and
    publishes nothing. *)
Theorem listing_reads_only (status : option string) (d : db) :
  snd (run (get_orders status) d) = {| store := d; log := [] |}.
Proof.
  rewrite run_get_orders_eq.
  pose proof (mapM_expand_world (listed status d) {| store := d; log := [] |})
    as H.
  destruct (mapM _ _ _) as [[us|e] w]; exact H.
Qed.

(** X2.  When [GET /api/orders] answers, it answers 200 with exactly the
    rows that are not archived and, under a non-empty [status] filter,
    have that status: each such row once, no other row, each with the
    items its [items_json] reads as.  An empty [status] filters
    nothing. *)
Theorem listing_exactly_selected (status : option string) (d : db)
    (resp : response) (w : world) :
  run (get_orders status) d = (inl resp, w) ->
  exists us,
    resp = {| code := 200; payload := Rows us |}
    /\ Permutation (map row us) (filter (selects status) (orders d))
    /\ Forall (fun u => stored_items (row u) = Some (items u)) us.
Proof.
  rewrite run_get_orders_eq.
  destruct (mapM _ _ _) as [[us|e] w'] eqn:E; [|discriminate].
  intros H. injection H as <- _. exists us.
  destruct (mapM_expand_inl _ _ _ _ E) as [M F].
  split; [reflexivity|]. split; [|exact F].
  rewrite M, listed_selects. apply order_by_perm.
Qed.

Lemma listing_exactly_selected_witness :
  exists resp us,
    fst (run (get_orders None) db_T5) = inl resp
    /\ resp = {| code := 200; payload := Rows us |}
    /\ Permutation (map row us) (filter (selects None) (orders db_T5))
    /\ Forall (fun u => stored_items (row u) = Some (items u)) us.
Proof.
  destruct (listing_exactly_selected None db_T5 _ _ eq_refl)
    as (us & E & P & F).
  eexists _, us. split; [reflexivity|]. split; [exact E|]. now split.
Defined.

(** X3.  The rows that [GET /api/orders] answers are in the order of the
    query: no row stands after one that was created earlier. *)
Theorem listing_newest_first (status : option string) (d : db)
    (us : list order_view) (w : world) :
  run (get_orders status) d
  = (inl {| code := 200; payload := Rows us |}, w) ->
  newest_first (map row us).
Proof.
  rewrite run_get_orders_eq.
  destruct (mapM _ _ _) as [[us'|e] w'] eqn:E; [|discriminate].
  intros H. injection H as <- _.
  destruct (mapM_expand_inl _ _ _ _ E) as [M _].
  rewrite M, listed_selects. apply order_by_sorted.
Qed.

Lemma listing_newest_first_witness :
  exists us,
    fst (run (get_orders None) db_T5)
    = inl {| code := 200; payload := Rows us |}
    /\ map (fun u => created_at (row u)) us = [20; 10]
    /\ newest_first (map row us).
Proof.
  eexists. split; [reflexivity|]. split; [reflexivity|].
  exact (listing_newest_first None db_T5 _ _ eq_refl).
Defined.

(** X4.  [GET /api/orders] answers 200 when every selected row holds
    readable items, and throws the SyntaxError of [JSON.parse] as soon as
    one selected row does not: one unreadable active order fails the
    whole listing, an unreadable archived one does not matter. *)
Theorem listing_fails_on_unreadable_row (status : option string) (d : db) :
  match fst (run (get_orders status) d) with
  | inl resp =>
      code resp = 200
      /\ Forall (fun r => stored_items r <> None)
                (filter (selects status) (orders d))
  | inr e =>
      e = SyntaxError
      /\ Exists (fun r => stored_items r = None)
                (filter (selects status) (orders d))
  end.
Proof.
  rewrite run_get_orders_eq.
  destruct (mapM _ _ _) as [[us|e] w] eqn:E; simpl.
  - split; [reflexivity|].
    destruct (mapM_expand_inl _ _ _ _ E) as [M F].
    apply Forall_forall. intros r Hr.
    assert (HIn : In r (map row us)).
    { rewrite M, listed_selects. now apply order_by_In. }
    apply in_map_iff in HIn as (u & <- & Hu).
    rewrite Forall_forall in F. rewrite (F u Hu). discriminate.
  - assert (Es : e = SyntaxError) by exact (mapM_expand_error _ _ _ _ E).
    subst e. split; [reflexivity|].
    assert (X : Exists (fun r => stored_items r = None) (listed status d)).
    { apply (mapM_expand_inr _ {| store := d; log := [] |}). now exists w. }
    apply Exists_exists in X as (r & Hr & Hn).
    apply Exists_exists. exists r. split; [|exact Hn].
    rewrite listed_selects in Hr.
    exact (proj1 (order_by_In _ _) Hr).
Qed.

(** What a call has written when it is over, answered or thrown. *)
Lemma store_after_handle (c : call) (d : db) :
  let d' := store (snd (run (handle c) d)) in
  d' = d
  \/ (exists t l sr now,
        c = Create (Some t) (Some (JArr l)) sr now /\ t <> ""
        /\ d' = {| orders := orders d ++ [placed_row d t l sr now];
                   seq := next_rowid d |})
  \/ (exists t x l sr e old,
        c = AppendItems t (Some (JArr (x :: l))) sr
        /\ select_latest_active t d = Some e
        /\ stored_items e = Some (JArr old)
        /\ d' = fst (update_where_id
                       (set_items_requests_status
                          (JSON_stringify (JArr (old ++ x :: l)))
                          (appended_requests e sr) "placed") (id e) d))
  \/ (exists i st,
        c = SetStatus i (Some st) /\ includes statuses (Some st) = true
        /\ d' = fst (update_where_id (set_status_case st st) i d))
  \/ (exists i,
        c = Bill i
        /\ d' = fst (update_where_id (set_status_archived "billed") i d)).
Proof.
  destruct c as [t v sr now|t v sr|i st|i]; cbn [handle]; cbv zeta.
  - destruct (post_orders_cases t v) as [[C _]|(t' & l & -> & Ht & ->)].
    + left. now rewrite (post_orders_invalid t v sr now d C).
    + right; left. exists t', l, sr, now.
      rewrite (post_orders_valid t' l sr now d Ht). now repeat split.
  - destruct (negb (truthy_field v) || negb (isArray_field v)
              || length_is_zero v) eqn:C.
    + left. now rewrite (post_add_items_invalid t v sr d C).
    + destruct v as [[|b|z|s|[|x l]|m| |b0]|]; simpl in C;
        rewrite ?orb_true_r in C; try discriminate C.
      destruct (select_latest_active t d) as [e|] eqn:He.
      * unfold run.
        rewrite (post_add_items_found t x l sr {| store := d; log := [] |}
                   e He).
        destruct (stored_items e) as [[|b|z|s|old|m| |b0]|] eqn:Hold;
          try (left; reflexivity).
        right; right; left. exists t, x, l, sr, e, old.
        repeat split; try assumption.
        apply store_update_and_publish.
      * left. now rewrite (post_add_items_not_found t x l sr d He).
  - destruct (includes statuses st) eqn:C.
    + destruct st as [st|]; [|discriminate C].
      right; right; right; left. exists i, st.
      rewrite (post_status_eq i st C), store_update_and_publish.
      now repeat split.
    + left. now rewrite (post_status_invalid i st d C).
  - right; right; right; right. exists i.
    rewrite post_bill_eq, store_update_and_publish. now split.
Qed.

Lemma select_by_id_app (i : Z) (d : db) (r x : order_row) (s : Z) :
  select_by_id i d = Some r ->
  select_by_id i {| orders := orders d ++ [x]; seq := s |} = Some r.
Proof.
  unfold select_by_id. simpl. intros H.
  induction (orders d) as [|y l IH]; simpl in *; [discriminate H|].
  destruct (id y =? i); [exact H | now apply IH].
Qed.

Lemma set_status_case_with_status (st : string) (r : order_row) :
  includes statuses (Some st) = true ->
  set_status_case st st r = with_status st r.
Proof.
  intros H. unfold set_status_case, with_status, param_eq_archived_column.
  now rewrite (statuses_not_numbers st H).
Qed.

(* ================================================================== *)
(** * What the calls keep *)
(* ================================================================== *)

(** X5.  No mutating order call removes an order or touches its key
    columns: an order that could be read by id before the call can be
    read by the same id after it, with the same [table_no] and
    [created_at], whether the call answered or threw. *)
Theorem orders_are_never_removed (c : call) (d : db) (i : Z)
    (r : order_row) :
  select_by_id i d = Some r ->
  exists r',
    select_by_id i (store (snd (run (handle c) d))) = Some r'
    /\ id r' = id r /\ table_no r' = table_no r
    /\ created_at r' = created_at r.
Proof.
  intros Hr.
  destruct (store_after_handle c d)
    as [E|[(t & l & sr & now & _ & _ & E)
          |[(t & x & l & sr & e & old & _ & _ & _ & E)
           |[(j & st & _ & _ & E)|(j & _ & E)]]]];
    cbv zeta in E; rewrite E.
  - now exists r.
  - exists r. split; [now apply select_by_id_app | now repeat split].
  - rewrite select_by_id_update, Hr by reflexivity. simpl.
    eexists. split; [reflexivity|]. destruct (id r =? id e); now repeat split.
  - rewrite select_by_id_update, Hr by reflexivity. simpl.
    eexists. split; [reflexivity|]. destruct (id r =? j); now repeat split.
  - rewrite select_by_id_update, Hr by reflexivity. simpl.
    eexists. split; [reflexivity|]. destruct (id r =? j); now repeat split.
Qed.

Lemma orders_are_never_removed_witness :
  exists r',
    select_by_id 1 (store (snd (run (handle (Bill 1)) db_T5))) = Some r'
    /\ id r' = 1 /\ table_no r' = "T5" /\ created_at r' = 10.
Proof.
  apply (orders_are_never_removed (Bill 1) db_T5 1
           (nth 0 (orders db_T5) (mk_row 0 "" None None "" 0 0))).
  reflexivity.
Defined.

(** X6.  Of the mutating order calls only [bill] writes the [archived]
    flag, and it writes 1: after any other call every order has the flag
    it had, so create, add-items and set-status (whatever the status)
    neither archive an order nor bring an archived one back. *)
Theorem only_bill_writes_archived (c : call) (d : db) (i : Z)
    (r r' : order_row) :
  select_by_id i d = Some r ->
  select_by_id i (store (snd (run (handle c) d))) = Some r' ->
  archived r' = archived r \/ (c = Bill i /\ archived r' = 1).
Proof.
  intros Hr.
  destruct (store_after_handle c d)
    as [E|[(t & l & sr & now & _ & _ & E)
          |[(t & x & l & sr & e & old & _ & _ & _ & E)
           |[(j & st & _ & Hst & E)|(j & -> & E)]]]];
    cbv zeta in E; rewrite E.
  - rewrite Hr. intros [= <-]. now left.
  - rewrite (select_by_id_app i d r _ _ Hr). intros [= <-]. now left.
  - rewrite select_by_id_update, Hr by reflexivity. simpl.
    intros [= <-]. left. now destruct (id r =? id e).
  - rewrite select_by_id_update, Hr by reflexivity. simpl.
    intros [= <-]. left. destruct (id r =? j); [|reflexivity].
    now apply set_status_case_archived.
  - rewrite select_by_id_update, Hr by reflexivity. simpl.
    intros [= <-]. destruct (select_by_id_In _ _ _ Hr) as [_ Hi].
    destruct (Z.eqb_spec (id r) j) as [Ej|Nj]; [|now left].
    right. split; [congruence | reflexivity].
Qed.

Lemma only_bill_writes_archived_witness :
  archived (set_status_case "archived" "archived"
              (nth 0 (orders db_T1) (mk_row 0 "" None None "" 0 0)))
  = 0
  \/ (SetStatus 1 (Some "archived") = Bill 1
      /\ archived (set_status_case "archived" "archived"
                     (nth 0 (orders db_T1) (mk_row 0 "" None None "" 0 0)))
         = 1).
Proof.
  apply (only_bill_writes_archived (SetStatus 1 (Some "archived")) db_T1 1
           (nth 0 (orders db_T1) (mk_row 0 "" None None "" 0 0))).
  - reflexivity.
  - reflexivity.
Defined.

(* ================================================================== *)
(** * How the calls compose *)
(* ================================================================== *)

Lemma update_where_id_twice (f g : order_row -> order_row) (i : Z) (d : db) :
  (forall r, id (g r) = id r) ->
  fst (update_where_id f i (fst (update_where_id g i d)))
  = fst (update_where_id (fun r => f (g r)) i d).
Proof.
  intros Hg. unfold update_where_id. simpl. f_equal.
  rewrite map_map. apply map_ext. intros r.
  destruct (Z.eqb_spec (id r) i) as [E|N].
  - now rewrite Hg, E, Z.eqb_refl.
  - destruct (Z.eqb_spec (id r) i); [contradiction | reflexivity].
Qed.

Lemma update_where_id_ext (f g : order_row -> order_row) (i : Z) (d : db) :
  (forall r, f r = g r) ->
  fst (update_where_id f i d) = fst (update_where_id g i d).
Proof.
  intros H. unfold update_where_id. simpl. f_equal.
  apply map_ext. intros r. now rewrite H.
Qed.

Lemma run_update_and_publish_store f g i name b (d1 d2 : db) :
  fst (update_where_id f i d1) = fst (update_where_id g i d2) ->
  run (update_and_publish f i name b) d1
  = run (update_and_publish g i name b) d2.
Proof.
  intros E. unfold run. rewrite !run_update_and_publish.
  cbv zeta. cbn [store log app]. now rewrite E.
Qed.

(** X7.  [bill] can be repeated: billing an order that has just been
    billed does all that the first call did, the same answer or error,
    the same write, the same "order:billed" event again, and leaves the
    store that the first call left. *)
Theorem bill_twice (i : Z) (d : db) :
  run (post_bill i) (store (snd (run (post_bill i) d)))
  = run (post_bill i) d.
Proof.
  rewrite !post_bill_eq, store_update_and_publish.
  apply run_update_and_publish_store.
  now rewrite update_where_id_twice by reflexivity.
Qed.

(** X8.  The last status wins: setting a status [s1] and then a status
    [s2] on the same id does what setting [s2] alone does, the same
    answer or error, the same event, the same store; in particular a
    set-status call can be repeated. *)
Theorem setStatus_last_wins (i : Z) (s1 s2 : string) (d : db) :
  includes statuses (Some s1) = true ->
  includes statuses (Some s2) = true ->
  run (post_status i (Some s2))
      (store (snd (run (post_status i (Some s1)) d)))
  = run (post_status i (Some s2)) d.
Proof.
  intros H1 H2.
  rewrite (post_status_eq i s1 H1), (post_status_eq i s2 H2).
  rewrite store_update_and_publish.
  apply run_update_and_publish_store.
  rewrite update_where_id_twice by reflexivity.
  apply update_where_id_ext. intros r.
  now rewrite !set_status_case_with_status.
Qed.

Lemma setStatus_last_wins_witness :
  run (post_status 1 (Some "ready"))
      (store (snd (run (post_status 1 (Some "preparing")) db_T1)))
  = run (post_status 1 (Some "ready")) db_T1.
Proof.
  apply (setStatus_last_wins 1 "preparing" "ready" db_T1); reflexivity.
Defined.

(** X9.  A set-status call with one of the five statuses writes the
    status of the order with that id and nothing else: every other
    column of that order, every other order and the id counter are as
    before, also when the order is archived, which does not stop the
    write. *)
Theorem setStatus_writes_status_only (i : Z) (st : string) (d : db) :
  includes statuses (Some st) = true ->
  store (snd (run (post_status i (Some st)) d))
  = {| orders := map (fun r => if id r =? i then with_status st r else r)
                     (orders d);
       seq := seq d |}.
Proof.
  intros H. rewrite (post_status_eq i st H), store_update_and_publish.
  unfold update_where_id. simpl. f_equal.
  apply map_ext. intros r.
  destruct (id r =? i); [now apply set_status_case_with_status | reflexivity].
Qed.

Lemma setStatus_writes_status_only_witness :
  store (snd (run (post_status 1 (Some "ready"))
                  (store (snd (run (post_bill 1) db_T5)))))
  = {| orders := map (fun r => if id r =? 1 then with_status "ready" r
                               else r)
                     (orders (store (snd (run (post_bill 1) db_T5))));
       seq := 2 |}.
Proof.
  apply (setStatus_writes_status_only 1 "ready"
           (store (snd (run (post_bill 1) db_T5)))).
  reflexivity.
Defined.

(* ================================================================== *)
(** * Add-items *)
(* ================================================================== *)

Lemma select_latest_active_some (t : string) (d : db) (r : order_row) :
  In r (orders d) -> active_at t r ->
  exists e, select_latest_active t d = Some e.
Proof.
  intros HIn [Ht Ha]. unfold select_latest_active.
  apply (order_by_head_some _ r). apply filter_In. split; [exact HIn|].
  apply andb_true_iff. split; [now apply String.eqb_eq | now apply Z.eqb_eq].
Qed.

(** X10.  On a store that keeps the table's invariant, add-items always
    answers, and with exactly one of three codes: 400 when [items] is not
    a non-empty array, whatever the table holds; else 404 when the table
    has no active order; else 200. *)
Theorem add_items_answers (d : db) (t : string) (v : option json)
    (sr : option string) :
  wf d ->
  exists resp w,
    run (post_add_items t v sr) d = (inl resp, w)
    /\ (code resp = 400 <-> ~ valid_items v)
    /\ (code resp = 404 <->
        valid_items v /\ forall r, In r (orders d) -> ~ active_at t r)
    /\ (code resp = 200 <->
        valid_items v /\ exists r, In r (orders d) /\ active_at t r).
Proof.
  intros W.
  destruct (post_add_items_cases d t v sr W)
    as [[E N]|[(x & l & -> & He & E)|(x & l & e & old & -> & He & Hold)]].
  - eexists _, _. split; [exact E|]. cbn [code]. repeat split;
      try discriminate; try (intros _; exact N);
      intros [V _]; contradiction.
  - assert (V : valid_items (Some (JArr (x :: l)))) by now exists x, l.
    assert (Hno : forall r, In r (orders d) -> ~ active_at t r).
    { intros r HIn Ha.
      destruct (select_latest_active_some t d r HIn Ha) as [e He'].
      congruence. }
    eexists _, _. split; [exact E|]. cbn [code]. repeat split;
      try discriminate; try assumption.
    + intros N. contradiction.
    + intros [_ (r & HIn & Ha)]. exfalso. exact (Hno r HIn Ha).
  - assert (V : valid_items (Some (JArr (x :: l)))) by now exists x, l.
    destruct (post_add_items_ok d t x l sr e old W He Hold) as (E & _).
    destruct (select_latest_active_spec t d e He) as (HIn & Ha & _).
    eexists _, _. split; [exact E|]. cbn [code]. repeat split;
      try discriminate; try assumption.
    + intros N. contradiction.
    + intros [_ Hno]. exfalso. exact (Hno e HIn Ha).
    + now exists e.
Qed.

Lemma add_items_answers_witness :
  exists resp w,
    run (post_add_items "T9" (Some (JArr [])) None) db_T9 = (inl resp, w)
    /\ (code resp = 400 <-> ~ valid_items (Some (JArr [])))
    /\ (code resp = 404 <->
        valid_items (Some (JArr []))
        /\ forall r, In r (orders db_T9) -> ~ active_at "T9" r)
    /\ (code resp = 200 <->
        valid_items (Some (JArr []))
        /\ exists r, In r (orders db_T9) /\ active_at "T9" r).
Proof.
  apply (add_items_answers db_T9 "T9" (Some (JArr [])) None).
  exact (wf_insert empty_db "T9" [JObj [("sku", JStr "A")]]
           (Some "no onions") 100 wf_empty).
Defined.

(** X11.  Add-items for a table leaves alone every order that is archived
    or belongs to another table: such an order reads back, under its id,
    exactly as it was. *)
Theorem add_items_spares_inactive (d : db) (t : string) (v : option json)
    (sr : option string) (r : order_row) :
  wf d -> In r (orders d) -> ~ active_at t r ->
  select_by_id (id r) (store (snd (run (post_add_items t v sr) d)))
  = Some r.
Proof.
  intros W HIn Hna.
  pose proof (select_by_id_key d r (wf_key d W) HIn) as Hr.
  destruct (post_add_items_cases d t v sr W)
    as [[E _]|[(x & l & _ & _ & E)|(x & l & e & old & -> & He & Hold)]].
  - now rewrite E.
  - now rewrite E.
  - destruct (post_add_items_ok d t x l sr e old W He Hold) as (E & _).
    rewrite E. cbn [snd store].
    rewrite select_by_id_other; [exact Hr | reflexivity |].
    intros Eid. destruct (select_latest_active_spec t d e He) as (HIe & Ha & _).
    apply Hna. now rewrite (key_injective d r e W HIn HIe Eid).
Qed.

Lemma add_items_spares_inactive_witness :
  select_by_id 1
    (store (snd (run (post_add_items "T7" (Some (JArr [JStr "tea"])) None)
                     db_T5)))
  = Some (nth 0 (orders db_T5) (mk_row 0 "" None None "" 0 0)).
Proof.
  apply (add_items_spares_inactive db_T5 "T7" (Some (JArr [JStr "tea"])) None
           (nth 0 (orders db_T5) (mk_row 0 "" None None "" 0 0))).
  - exact wf_db_T5.
  - simpl. auto.
  - intros [H _]. discriminate H.
Defined.

Lemma insert_desc_map (g : order_row -> order_row) (r : order_row)
    (l : list order_row) :
  (forall x, created_at (g x) = created_at x) ->
  insert_desc (g r) (map g l) = map g (insert_desc r l).
Proof.
  intros Hg. induction l as [|x l IH]; simpl; [reflexivity|].
  rewrite !Hg. destruct (created_at x <=? created_at r); simpl;
    [reflexivity | now rewrite IH].
Qed.

Lemma order_by_map (g : order_row -> order_row) (l : list order_row) :
  (forall x, created_at (g x) = created_at x) ->
  order_by_created_at_desc (map g l) = map g (order_by_created_at_desc l).
Proof.
  intros Hg. induction l as [|x l IH]; simpl; [reflexivity|].
  now rewrite IH, insert_desc_map.
Qed.

Lemma filter_map_same (p : order_row -> bool) (g : order_row -> order_row)
    (l : list order_row) :
  (forall x, p (g x) = p x) ->
  filter p (map g l) = map g (filter p l).
Proof.
  intros Hp. induction l as [|x l IH]; simpl; [reflexivity|].
  rewrite Hp. destruct (p x); simpl; now rewrite IH.
Qed.

Lemma select_latest_active_update (f : order_row -> order_row) (i : Z)
    (t : string) (d : db) :
  (forall r, table_no (f r) = table_no r) ->
  (forall r, archived (f r) = archived r) ->
  (forall r, created_at (f r) = created_at r) ->
  select_latest_active t (fst (update_where_id f i d))
  = option_map (fun r => if id r =? i then f r else r)
      (select_latest_active t d).
Proof.
  intros Ht Ha Hc. unfold select_latest_active, update_where_id. simpl.
  rewrite filter_map_same, order_by_map.
  - now destruct (order_by_created_at_desc _).
  - intros x. destruct (id x =? i); auto.
  - intros x. destruct (id x =? i); [|reflexivity]. now rewrite Ht, Ha.
Qed.

(** X12.  Two add-items calls for a table, one after the other, add up:
    the second answers with the items the order had, then those of the
    first call, then its own, the items of both calls as JSON text
    carries them (unchanged when none holds [-0] or a number that is not
    finite), and with the special_requests text that the first call left
    followed by its own separator and text; both calls write the same
    order. *)
Theorem add_items_twice (d : db) (t : string) (x y : json)
    (l m : list json) (sr1 sr2 : option string) (e : order_row)
    (old : list json) :
  wf d ->
  select_latest_active t d = Some e ->
  stored_items e = Some (JArr old) ->
  let d1 := store (snd (run (post_add_items t (Some (JArr (x :: l))) sr1)
                            d)) in
  exists u w,
    run (post_add_items t (Some (JArr (y :: m))) sr2) d1
    = (inl {| code := 200; payload := Ok_order u |}, w)
    /\ id (row u) = id e
    /\ items u
       = JArr (old ++ map json_normal (x :: l) ++ map json_normal (y :: m))
    /\ (Forall survives (x :: l) -> Forall survives (y :: m) ->
        items u = JArr (old ++ (x :: l) ++ (y :: m)))
    /\ Sqlite.special_requests (row u)
       = Some (appended_requests e sr1
               ++ (if truthy_text sr2 then "; " ++ text_or sr2 "" else "")).
Proof.
  intros W He Hold d1.
  destruct (post_add_items_ok d t x l sr1 e old W He Hold) as (E1 & _ & Hst).
  assert (W1 : wf d1).
  { exact (wf_handle (AppendItems t (Some (JArr (x :: l))) sr1) d W). }
  assert (E : d1 = fst (update_where_id
                          (set_items_requests_status
                             (JSON_stringify (JArr (old ++ x :: l)))
                             (appended_requests e sr1) "placed") (id e) d)).
  { subst d1. now rewrite E1. }
  assert (He1 : select_latest_active t d1
                = Some (appended_row e old (x :: l) sr1)).
  { rewrite E, select_latest_active_update, He by reflexivity.
    simpl. now rewrite Z.eqb_refl. }
  cbn [row] in Hst.
  destruct (post_add_items_ok d1 t y m sr2 _ _ W1 He1 Hst) as (E2 & _).
  eexists _, _. split; [exact E2|]. cbn [row items].
  split; [reflexivity|]. split; [now rewrite <- app_assoc|].
  split.
  { intros S1 S2.
    now rewrite (survives_map _ S1), (survives_map _ S2), <- app_assoc. }
  cbn [appended_row set_items_requests_status Sqlite.special_requests].
  f_equal. unfold appended_requests at 1.
  unfold appended_row.
  cbn [set_items_requests_status Sqlite.special_requests].
  now rewrite text_or_empty.
Qed.

Lemma add_items_twice_witness :
  exists u w,
    run (post_add_items "T9" (Some (JArr [JNum 3])) (Some "hot"))
        (store (snd (run (post_add_items "T9" (Some (JArr [JNum 2])) None)
                         db_T9)))
    = (inl {| code := 200; payload := Ok_order u |}, w)
    /\ id (row u) = 1
    /\ items u
       = JArr ([JObj [("sku", JStr "A")]] ++ map json_normal [JNum 2]
               ++ map json_normal [JNum 3])
    /\ (Forall survives [JNum 2] -> Forall survives [JNum 3] ->
        items u = JArr ([JObj [("sku", JStr "A")]] ++ [JNum 2] ++ [JNum 3]))
    /\ Sqlite.special_requests (row u) = Some ("no onions" ++ "; hot").
Proof.
  apply (add_items_twice db_T9 "T9" (JNum 2) (JNum 3) [] [] None (Some "hot")
           (nth 0 (orders db_T9) (mk_row 0 "" None None "" 0 0))
           [JObj [("sku", JStr "A")]]).
  - exact (wf_insert empty_db "T9" [JObj [("sku", JStr "A")]]
             (Some "no onions") 100 wf_empty).
  - reflexivity.
  - reflexivity.
Defined.

(* ================================================================== *)
(** * Create and the ids *)
(* ================================================================== *)

(** X13.  A create call answered 200 has appended exactly one order to
    the table and touched no other: the new order carries the answered
    id, which is larger than every id in the table and than the id
    counter, the status "placed", the flag 0, the given time, the given
    special_requests (the empty text when absent) and items that read
    back as the array given, as JSON text carries it. *)
Theorem create_appends_fresh_row (d : db) (t : option string)
    (v : option json) (sr : option string) (now : Z) (i : Z) (w : world) :
  run (post_orders t v sr now) d
  = (inl {| code := 200; payload := Ok_id i |}, w) ->
  exists r,
    orders (store w) = (orders d ++ [r])%list
    /\ seq (store w) = i /\ id r = i
    /\ seq d < i /\ Forall (fun r0 => id r0 < i) (orders d)
    /\ t = Some (table_no r) /\ status r = "placed" /\ archived r = 0
    /\ created_at r = now
    /\ Sqlite.special_requests r = Some (text_or sr "")
    /\ exists l,
         v = Some (JArr l)
         /\ stored_items r = Some (JArr (map json_normal l))
         /\ (Forall survives l -> stored_items r = Some (JArr l)).
Proof.
  destruct (post_orders_cases t v) as [[C _]|(t' & l & -> & Ht & ->)].
  - rewrite (post_orders_invalid t v sr now d C). discriminate.
  - rewrite (post_orders_valid t' l sr now d Ht). cbv zeta.
    intros [= <- <-]. exists (placed_row d t' l sr now). cbn.
    repeat split.
    + unfold next_rowid. lia.
    + apply Forall_forall. intros r0 H0. now apply next_rowid_fresh.
    + assert (H : stored_items (placed_row d t' l sr now)
                  = Some (JArr (map json_normal l)))
        by now apply (stored_items_stringify _ (JArr l)).
      exists l. split; [reflexivity|]. split; [exact H|].
      intros S. now rewrite H, (survives_map l S).
Qed.

Lemma create_appends_fresh_row_witness :
  exists r,
    orders (store (snd (run (post_orders (Some "T5") (Some (JArr []))
                               None 30) db_T5)))
    = (orders db_T5 ++ [r])%list
    /\ id r = 3 /\ status r = "placed" /\ archived r = 0
    /\ Sqlite.special_requests r = Some "".
Proof.
  destruct (create_appends_fresh_row db_T5 (Some "T5") (Some (JArr [])) None
              30 3 _ eq_refl)
    as (r & H1 & _ & H3 & _ & _ & _ & H7 & H8 & _ & H10 & _).
  exists r. repeat split; assumption.
Defined.

(** X14.  On every store that the calls can produce from the empty table
    the ids stand in strictly increasing order in the table, lie between
    1 and the id counter, and the next create is given the counter plus
    one: ids are handed out in increasing order and none is handed out
    twice. *)
Theorem ids_increase (d : db) :
  reachable d ->
  StronglySorted Z.lt (map id (orders d))
  /\ Forall (fun r => 1 <= id r <= seq d) (orders d)
  /\ 0 <= seq d
  /\ next_rowid d = seq d + 1.
Proof.
  assert (Next : forall d, Forall (fun r => 1 <= id r <= seq d) (orders d) ->
                           0 <= seq d -> next_rowid d = seq d + 1).
  { intros d0 B S. unfold next_rowid. f_equal.
    assert (M : max_rowid (orders d0) <= seq d0).
    { induction B as [|r l Hr _ IH]; simpl; [exact S | lia]. }
    lia. }
  assert (Inv : reachable d ->
                StronglySorted Z.lt (map id (orders d))
                /\ Forall (fun r => 1 <= id r <= seq d) (orders d)
                /\ 0 <= seq d).
  { induction 1 as [|c d R (S & B & P)].
    - simpl. repeat split; [constructor | constructor | lia].
    - assert (Upd : forall f i,
                (forall r, id (f r) = id r) ->
                let d' := fst (update_where_id f i d) in
                StronglySorted Z.lt (map id (orders d'))
                /\ Forall (fun r => 1 <= id r <= seq d') (orders d')
                /\ 0 <= seq d').
      { intros f i Hf. simpl. repeat split; [| |exact P].
        - rewrite map_map. erewrite map_ext; [exact S|].
          intros r. simpl. destruct (id r =? i); auto.
        - apply Forall_map. eapply Forall_impl; [|exact B].
          intros r Hr. simpl.
          destruct (id r =? i); [now rewrite Hf | exact Hr]. }
      destruct (store_after_handle c d)
        as [E|[(t & l & sr & now & _ & _ & E)
              |[(t & x & l & sr & e & old & _ & _ & _ & E)
               |[(j & st & _ & _ & E)|(j & _ & E)]]]];
        cbv zeta in E; rewrite E; try (now apply Upd).
      + now repeat split.
      + pose proof (Next d B P) as N. simpl. repeat split.
        * rewrite map_app. simpl.
          clear - S B N. rewrite N.
          induction (orders d) as [|r l IH]; simpl.
          -- repeat constructor.
          -- inversion S as [|? ? S' F]; subst.
             inversion B as [|? ? Hr B']; subst.
             constructor; [now apply IH|].
             apply Forall_app. split; [exact F|].
             constructor; [lia | constructor].
        * apply Forall_app. split.
          -- eapply Forall_impl; [|exact B]. intros r Hr. simpl in *. lia.
          -- constructor; [simpl; lia | constructor].
        * lia. }
  intros R. destruct (Inv R) as (S & B & P).
  repeat split; try assumption. now apply Next.
Qed.

Lemma reachable_db_T5 : reachable db_T5.
Proof.
  exact (reachable_call (Create (Some "T5") (Some (JArr [JStr "tea"])) None 20)
           _ (reachable_call
                (Create (Some "T5") (Some (JArr [JStr "soup"])) None 10)
                _ reachable_empty)).
Qed.

Lemma ids_increase_witness :
  StronglySorted Z.lt (map id (orders db_T5))
  /\ Forall (fun r => 1 <= id r <= seq db_T5) (orders db_T5)
  /\ 0 <= seq db_T5
  /\ next_rowid db_T5 = seq db_T5 + 1.
Proof.
  apply (ids_increase db_T5). exact reachable_db_T5.
Defined.

(** X15.  A billed order is in no listing: after [bill] for an id,
    whatever [GET /api/orders] answers, with or without a status filter,
    holds no order of that id. *)
Theorem billed_order_leaves_listing (d : db) (i : Z)
    (status : option string) (resp : response) (w : world) :
  run (get_orders status) (store (snd (run (post_bill i) d)))
  = (inl resp, w) ->
  exists us,
    resp = {| code := 200; payload := Rows us |}
    /\ Forall (fun u => id (row u) <> i) us.
Proof.
  rewrite run_get_orders_eq.
  destruct (mapM _ _ _) as [[us|e] w'] eqn:E; [|discriminate].
  intros H. injection H as <- _. exists us. split; [reflexivity|].
  destruct (mapM_expand_inl _ _ _ _ E) as [M _].
  apply Forall_forall. intros u Hu Hid.
  assert (HIn : In (row u) (listed status (store (snd (run (post_bill i) d)))))
    by (rewrite <- M; now apply in_map).
  rewrite listed_selects in HIn.
  apply (proj1 (order_by_In _ _)) in HIn.
  apply filter_In in HIn as [HIn Hsel].
  assert (Ha : archived (row u) = 0).
  { unfold selects in Hsel. destruct (truthy_text status).
    - apply andb_true_iff in Hsel as [_ Ha]. now apply Z.eqb_eq.
    - now apply Z.eqb_eq. }
  rewrite post_bill_eq, store_update_and_publish in HIn. simpl in HIn.
  apply in_map_iff in HIn as (r0 & E0 & _).
  destruct (Z.eqb_spec (id r0) i) as [Ei|Ni].
  - rewrite <- E0 in Ha. discriminate Ha.
  - apply Ni. now rewrite E0.
Qed.

Lemma billed_order_leaves_listing_witness :
  exists us,
    fst (run (get_orders None) (store (snd (run (post_bill 2) db_T5))))
    = inl {| code := 200; payload := Rows us |}
    /\ Forall (fun u => id (row u) <> 2) us.
Proof.
  destruct (billed_order_leaves_listing db_T5 2 None _ _ eq_refl)
    as (us & E & F).
  exists us. split; [|exact F]. exact (f_equal (@inl response error) E).
Defined.

Lemma catalog_max_rowid_ge (rows : list Catalog.item_row)
    (r : Catalog.item_row) :
  In r rows -> Catalog.id r <= Catalog.max_rowid rows.
Proof.
  induction rows as [|x l IH]; simpl; [contradiction|].
  intros [->|H]; [lia|]. specialize (IH H). lia.
Qed.

Lemma catalog_next_rowid_fresh (d : Catalog.items_db)
    (r : Catalog.item_row) :
  In r (Catalog.items d) -> Catalog.id r < Catalog.next_rowid d.
Proof.
  intros H. apply catalog_max_rowid_ge in H. unfold Catalog.next_rowid. lia.
Qed.

Lemma catalog_select_inserted (c n : string) (p : Z) (cat : string)
    (now : Z) (d : Catalog.items_db) :
  Catalog.select_item (Catalog.next_rowid d)
    (fst (Catalog.insert_item c n p cat now d))
  = Some (Catalog.mk_item (Catalog.next_rowid d) c n p cat now).
Proof.
  unfold Catalog.select_item, Catalog.insert_item. simpl.
  assert (F : forall r, In r (Catalog.items d) ->
                        Catalog.id r <> Catalog.next_rowid d).
  { intros r Hr. apply catalog_next_rowid_fresh in Hr. lia. }
  induction (Catalog.items d) as [|y l IH]; simpl.
  - now rewrite Z.eqb_refl.
  - destruct (Z.eqb_spec (Catalog.id y) (Catalog.next_rowid d)) as [E|_].
    + exfalso. apply (F y); [now left | exact E].
    + apply IH. intros r Hr. apply F. now right.
Qed.

Lemma catalog_insert_desc_In (r x : Catalog.item_row)
    (l : list Catalog.item_row) :
  In x (Catalog.insert_desc r l) <-> x = r \/ In x l.
Proof.
  induction l as [|y l IH]; simpl.
  - intuition.
  - destruct (Catalog.id y <=? Catalog.id r); simpl; [intuition|].
    rewrite IH. intuition.
Qed.

Lemma catalog_insert_desc_perm (r : Catalog.item_row)
    (l : list Catalog.item_row) :
  Permutation (Catalog.insert_desc r l) (r :: l).
Proof.
  induction l as [|x l IH]; simpl; [reflexivity|].
  destruct (Catalog.id x <=? Catalog.id r); [reflexivity|].
  rewrite IH. apply perm_swap.
Qed.

Lemma catalog_insert_desc_sorted (r : Catalog.item_row)
    (l : list Catalog.item_row) :
  Catalog.largest_id_first l ->
  Catalog.largest_id_first (Catalog.insert_desc r l).
Proof.
  unfold Catalog.largest_id_first.
  induction 1 as [|x l Hl IH Hx]; simpl.
  - repeat constructor.
  - destruct (Z.leb_spec (Catalog.id x) (Catalog.id r)) as [Hle|Hlt].
    + constructor; [now constructor|].
      constructor; [exact Hle|].
      eapply Forall_impl; [|exact Hx]. intros y Hy. simpl in Hy. lia.
    + constructor; [exact IH|].
      apply Forall_forall. intros y Hy.
      apply catalog_insert_desc_In in Hy as [->|Hy]; [lia|].
      rewrite Forall_forall in Hx. now apply Hx.
Qed.

Lemma catalog_select_items_app (l : list Catalog.item_row)
    (x : Catalog.item_row) :
  (forall y, In y l -> Catalog.id y < Catalog.id x) ->
  fold_right Catalog.insert_desc [] (l ++ [x])
  = x :: fold_right Catalog.insert_desc [] l.
Proof.
  intros H. rewrite fold_right_app. simpl.
  induction l as [|y l IH]; simpl; [reflexivity|].
  rewrite IH by (intros z Hz; apply H; now right). simpl.
  assert (Hy : Catalog.id y < Catalog.id x) by (apply H; now left).
  destruct (Z.leb_spec (Catalog.id x) (Catalog.id y)); [lia | reflexivity].
Qed.

Lemma catalog_post_items_valid (c : option string) (n : string)
    (p : option Z) (cat : option string) (now : Z) (d : Catalog.items_db) :
  n <> "" ->
  let r := Catalog.mk_item (Catalog.next_rowid d) (text_or c "") n
             (Catalog.number_or_zero p) (text_or cat "") now in
  let d' := Catalog.mk_items_db (Catalog.items d ++ [r])
              (Catalog.next_rowid d) in
  Catalog.run (Catalog.post_items c (Some n) p cat now) d
  = (Catalog.mk_response 200 (Catalog.Ok_id (Catalog.next_rowid d)),
     Catalog.mk_world d'
       [Catalog.Db_run d'; Catalog.Io_emit "item:added" (Some r)]).
Proof.
  intros Hn r d'. unfold Catalog.post_items.
  assert (E : truthy_text (Some n) = true).
  { simpl. destruct (String.eqb_spec n ""); [contradiction | reflexivity]. }
  rewrite E, text_or_empty. cbn [negb].
  pose proof (catalog_select_inserted (text_or c "") n
                (Catalog.number_or_zero p) (text_or cat "") now d) as S.
  unfold Catalog.insert_item in S. simpl in S.
  unfold Catalog.run, Catalog.bind, Catalog.runAsync, Catalog.getAsync,
    Catalog.insert_item. simpl.
  rewrite S. reflexivity.
Qed.

(* ================================================================== *)
(** * Items *)
(* ================================================================== *)

(** X16.  [POST /api/items] answers 400 "name required", writing and
    publishing nothing, when [name] is absent or empty, and only then;
    otherwise it answers 200 with a new id after appending one item, in
    which an absent [code] or [category] is the empty text and an absent
    [price] is 0, and after the write it publishes "item:added" once,
    with the item as stored. *)
Theorem item_create (c n : option string) (p : option Z)
    (cat : option string) (now : Z) (d : Catalog.items_db) :
  let out := Catalog.run (Catalog.post_items c n p cat now) d in
  (Catalog.status_code (fst out) = 400 <-> n = None \/ n = Some "")
  /\ (Catalog.status_code (fst out) = 400 ->
      out = (Catalog.mk_response 400 (Catalog.Err "name required"),
             Catalog.mk_world d []))
  /\ (Catalog.status_code (fst out) <> 400 ->
      exists r,
        fst out = Catalog.mk_response 200 (Catalog.Ok_id (Catalog.id r))
        /\ Catalog.items (Catalog.store (snd out))
           = (Catalog.items d ++ [r])%list
        /\ Catalog.log (snd out)
           = [Catalog.Db_run (Catalog.store (snd out));
              Catalog.Io_emit "item:added" (Some r)]
        /\ n = Some (Catalog.name r)
        /\ Catalog.code r = text_or c ""
        /\ Catalog.category r = text_or cat ""
        /\ Catalog.price r = match p with Some z => z | None => 0 end
        /\ Catalog.created_at r = now).
Proof.
  cbv zeta. destruct n as [n|].
  2:{ split; [split; [now left | reflexivity]|].
      split; [reflexivity | intros N; now contradiction N]. }
  destruct (String.eqb_spec n "") as [->|Hn].
  { split; [split; [now right | reflexivity]|].
    split; [reflexivity | intros N; now contradiction N]. }
  rewrite (catalog_post_items_valid c n p cat now d Hn). cbn.
  split; [split; [discriminate | intros [E|E]; congruence]|].
  split; [discriminate|]. intros _.
  eexists (Catalog.mk_item _ _ _ _ _ _). cbn. repeat split.
Qed.

(** X17.  [GET /api/items] answers 200 with every item of the table, each
    once, the largest id first, and writes and publishes nothing. *)
Theorem item_list (d : Catalog.items_db) :
  exists rows,
    Catalog.run Catalog.get_items d
    = (Catalog.mk_response 200 (Catalog.Rows rows), Catalog.mk_world d [])
    /\ Permutation rows (Catalog.items d)
    /\ Catalog.largest_id_first rows.
Proof.
  exists (Catalog.select_items d). split; [reflexivity|].
  unfold Catalog.select_items. split.
  - induction (Catalog.items d) as [|x l IH]; simpl; [reflexivity|].
    rewrite catalog_insert_desc_perm. now constructor.
  - induction (Catalog.items d) as [|x l IH]; simpl; [constructor|].
    now apply catalog_insert_desc_sorted.
Qed.

(** X18.  An item that has just been created heads the list: after a
    [POST /api/items] answered 200, [GET /api/items] answers the new item
    followed by exactly what it answered before. *)
Theorem created_item_heads_the_list (c n : option string) (p : option Z)
    (cat : option string) (now : Z) (d : Catalog.items_db) (i : Z)
    (w : Catalog.world) :
  Catalog.run (Catalog.post_items c n p cat now) d
  = (Catalog.mk_response 200 (Catalog.Ok_id i), w) ->
  exists r,
    Catalog.select_item i (Catalog.store w) = Some r
    /\ Catalog.id r = i
    /\ Catalog.payload (fst (Catalog.run Catalog.get_items (Catalog.store w)))
       = Catalog.Rows
           (r :: match Catalog.payload (fst (Catalog.run Catalog.get_items d))
                 with
                 | Catalog.Rows rows => rows
                 | _ => []
                 end).
Proof.
  destruct n as [n|]; [|discriminate].
  destruct (String.eqb_spec n "") as [->|Hn]; [discriminate|].
  rewrite (catalog_post_items_valid c n p cat now d Hn). cbv zeta.
  intros [= <- <-]. eexists. cbn [Catalog.store].
  split; [exact (catalog_select_inserted _ _ _ _ now d)|].
  split; [reflexivity|].
  cbn. unfold Catalog.select_items. cbn [Catalog.items]. f_equal.
  apply catalog_select_items_app.
  intros y Hy. cbn. now apply catalog_next_rowid_fresh.
Qed.

Lemma created_item_heads_the_list_witness :
  exists r,
    Catalog.select_item 1
      (Catalog.store
         (snd (Catalog.run
                 (Catalog.post_items None (Some "Dal") (Some 120) None 7)
                 Catalog.empty_items))) = Some r
    /\ Catalog.id r = 1
    /\ Catalog.payload
         (fst (Catalog.run Catalog.get_items
                 (Catalog.store
                    (snd (Catalog.run
                            (Catalog.post_items None (Some "Dal") (Some 120)
                               None 7) Catalog.empty_items)))))
       = Catalog.Rows [r].
Proof.
  exact (created_item_heads_the_list None (Some "Dal") (Some 120) None 7
           Catalog.empty_items 1 _ eq_refl).
Defined.

(** X19.  Item ids grow from one create to the next: the id answered by
    a [POST /api/items] is larger than every id in the table and than
    the id counter, and the successful create that follows it is answered
    a larger id. *)
Theorem item_ids_grow (c n c' n' : option string) (p p' : option Z)
    (cat cat' : option string) (now now' : Z) (d : Catalog.items_db)
    (i j : Z) (w w' : Catalog.world) :
  Catalog.run (Catalog.post_items c n p cat now) d
  = (Catalog.mk_response 200 (Catalog.Ok_id i), w) ->
  Catalog.run (Catalog.post_items c' n' p' cat' now') (Catalog.store w)
  = (Catalog.mk_response 200 (Catalog.Ok_id j), w') ->
  Forall (fun r => Catalog.id r < i) (Catalog.items d)
  /\ Catalog.seq d < i
  /\ i < j.
Proof.
  destruct n as [n|]; [|discriminate].
  destruct (String.eqb_spec n "") as [->|Hn]; [discriminate|].
  rewrite (catalog_post_items_valid c n p cat now d Hn). cbv zeta.
  intros [= <- <-].
  destruct n' as [n'|]; [|discriminate].
  destruct (String.eqb_spec n' "") as [->|Hn']; [discriminate|].
  rewrite (catalog_post_items_valid c' n' p' cat' now' _ Hn'). cbv zeta.
  intros [= <- _]. repeat split.
  - apply Forall_forall. intros r Hr. now apply catalog_next_rowid_fresh.
  - unfold Catalog.next_rowid. lia.
  - cbn [Catalog.store]. set (k := Catalog.next_rowid d).
    unfold Catalog.next_rowid. cbn [Catalog.seq]. lia.
Qed.

Lemma item_ids_grow_witness :
  Forall (fun r => Catalog.id r < 1) (Catalog.items Catalog.empty_items)
  /\ Catalog.seq Catalog.empty_items < 1
  /\ 1 < 2.
Proof.
  exact (item_ids_grow None (Some "Dal") None (Some "Roti") None None
           None None 7 8 Catalog.empty_items 1 2 _ _ eq_refl eq_refl).
Defined.

(** X20.  An order whose [items_json] is NULL or the empty text counts as
    having no items: add-items on it succeeds and answers with exactly
    the new items, as JSON text carries them (unchanged when none holds
    [-0] or a number that is not finite). *)
Theorem add_items_on_missing_items (d : db) (t : string) (x : json)
    (l : list json) (sr : option string) (e : order_row) :
  NoDup (map id (orders d)) ->
  select_latest_active t d = Some e ->
  items_json e = None \/ items_json e = Some "" ->
  exists u w,
    run (post_add_items t (Some (JArr (x :: l))) sr) d
    = (inl {| code := 200; payload := Ok_order u |}, w)
    /\ id (row u) = id e
    /\ items u = JArr (map json_normal (x :: l))
    /\ (Forall survives (x :: l) -> items u = JArr (x :: l))
    /\ select_by_id (id e) (store w) = Some (row u).
Proof.
  intros K He Hnull.
  assert (Hold : stored_items e = Some (JArr [])).
  { unfold stored_items. destruct Hnull as [-> | ->]; reflexivity. }
  assert (HIn : In e (orders d)) by now apply select_latest_active_spec in He.
  unfold run.
  rewrite (post_add_items_found t x l sr {| store := d; log := [] |} e He).
  rewrite Hold, run_update_and_publish. cbv zeta. cbn [store log app].
  rewrite select_by_id_updated by reflexivity.
  rewrite (select_by_id_key d e K HIn). cbn [option_map].
  rewrite (stored_items_stringify _ (JArr ([] ++ x :: l))) by reflexivity.
  eexists _, _. split; [reflexivity|]. cbn [row items store].
  split; [reflexivity|]. split; [reflexivity|].
  split; [intros S; now rewrite <- (survives_map _ S) at 2|].
  rewrite select_by_id_updated by reflexivity.
  now rewrite (select_by_id_key d e K HIn).
Qed.

Lemma add_items_on_missing_items_witness :
  exists u w,
    run (post_add_items "T3" (Some (JArr [JStr "tea"])) None) db_null_items
    = (inl {| code := 200; payload := Ok_order u |}, w)
    /\ id (row u) = 4
    /\ items u = JArr (map json_normal [JStr "tea"])
    /\ (Forall survives [JStr "tea"] -> items u = JArr [JStr "tea"])
    /\ select_by_id 4 (store w) = Some (row u).
Proof.
  apply (add_items_on_missing_items db_null_items "T3" (JStr "tea") [] None
           (nth 0 (orders db_null_items) (mk_row 0 "" None None "" 0 0))).
  - repeat constructor. intros [].
  - reflexivity.
  - left. reflexivity.
Defined.
